(** * Token ledger and market settlement of ApeHub

    A shallow embedding of the prediction-market back end:

    - [routes/alpaca.js]  (the predictions router: tokens, bets, admin
      resolution, payouts),
    - [routes/kalshi.js]  (bets on mirrored Kalshi markets and the
      [sync-resolutions] pass),
    - [scripts/resolve-predictions.js] (the auto-resolver and
      [manualResolve]),
    - [scripts/generate-predictions.js] ([updatePredictionStatuses]),
    - the SQL schema (tables [user_tokens], [predictions], [user_bets],
      [payout_requests], [kalshi_bets]).

    PostgreSQL is modelled as a record of tables together with one
    connection: statements run one after the other, [BEGIN] takes a
    snapshot, [ROLLBACK] restores it, [COMMIT] drops it.  A handler is a
    computation in a state-and-exception monad over that connection.  A
    storage failure can be injected at the n-th statement a handler issues,
    which is how atomicity statements are phrased. *)

From stdpp Require Import gmap strings list fin_maps sorting.
From Stdlib Require Import ZArith QArith Qround Qabs Lia.

Close Scope Q_scope.
Open Scope Z_scope.

(** ** Rows *)

(** [position] and [outcome] columns hold ['yes'] or ['no']. *)
Inductive position := Yes | No.

Definition position_eqb (a b : position) : bool :=
  match a, b with
  | Yes, Yes | No, No => true
  | _, _ => false
  end.

Definition position_str (p : position) : string :=
  match p with Yes => "yes" | No => "no" end.

(** [['yes', 'no'].includes(s)], returning the recognised value. *)
Definition parse_position (s : string) : option position :=
  if String.eqb s "yes" then Some Yes
  else if String.eqb s "no" then Some No
  else None.

Global Instance position_eq_dec : EqDecision position.
Proof. solve_decision. Defined.

(** [predictions.status] *)
Inductive market_status := S_upcoming | S_open | S_closed | S_resolved.

Global Instance market_status_eq_dec : EqDecision market_status.
Proof. solve_decision. Defined.

Definition market_status_eqb (a b : market_status) : bool :=
  match a, b with
  | S_upcoming, S_upcoming | S_open, S_open
  | S_closed, S_closed | S_resolved, S_resolved => true
  | _, _ => false
  end.

(** [user_bets.status], [kalshi_bets.status] *)
Inductive bet_status := B_active | B_won | B_lost | B_cancelled.

Global Instance bet_status_eq_dec : EqDecision bet_status.
Proof. solve_decision. Defined.

(** [payout_requests.status] *)
Inductive payout_status := P_pending | P_approved | P_completed | P_rejected.

(** A row of [user_tokens], keyed by [user_email]. *)
Record account := Account {
  balance : Z;
  total_purchased : Z;
  total_won : Z;
  total_lost : Z
}.

(** A row of [predictions], keyed by [id].  Timestamps are integers
    (milliseconds); the multipliers are the DECIMAL(4,2) column values. *)
Record prediction := Prediction {
  subcategory : string;
  ticker : string;
  range_pct : option Q;
  yes_payout_multiplier : Q;
  no_payout_multiplier : Q;
  min_bet : Z;
  max_bet : Z;
  opens_at : Z;
  closes_at : Z;
  resolves_at : Z;
  status : market_status;
  outcome : option position;
  resolution_source : string;
  resolved_at : option Z;
  resolved_by : string;
  total_yes_tokens : Z;
  total_no_tokens : Z;
  total_bettors : Z
}.

(** A row of [user_bets]. *)
Record bet := Bet {
  bet_id : Z;
  user_email : string;
  prediction_id : Z;
  bet_position : position;
  tokens_wagered : Z;
  potential_payout : Z;
  payout_multiplier : Q;
  bet_state : bet_status;
  tokens_won : Z;
  payout_processed : bool
}.

(** A row of [kalshi_bets]. *)
Record kalshi_bet := KalshiBet {
  kb_id : Z;
  kb_user_email : string;
  kalshi_ticker : string;
  kb_position : position;
  kb_tokens_wagered : Z;
  kb_potential_payout : Z;
  kb_payout_multiplier : Q;
  kalshi_status : string;
  kb_state : bet_status;
  kb_tokens_won : Z
}.

(** A row of [payout_requests]. *)
Record payout_request := PayoutRequest {
  pr_id : Z;
  pr_user_email : string;
  tokens_amount : Z;
  usd_amount : Q;
  payout_method : string;
  payout_destination : string;
  pr_status : payout_status;
  reviewed_by : string;
  transaction_reference : string;
  rejection_reason : string
}.

(** The database. *)
Record DB := Db {
  user_tokens : gmap string account;
  predictions : gmap Z prediction;
  user_bets : list bet;
  kalshi_bets : list kalshi_bet;
  payout_requests : list payout_request
}.

Definition empty_db : DB := Db ∅ ∅ [] [] [].

Definition set_user_tokens (f : gmap string account → gmap string account) (d : DB) : DB :=
  Db (f (user_tokens d)) (predictions d) (user_bets d) (kalshi_bets d) (payout_requests d).
Definition set_predictions (f : gmap Z prediction → gmap Z prediction) (d : DB) : DB :=
  Db (user_tokens d) (f (predictions d)) (user_bets d) (kalshi_bets d) (payout_requests d).
Definition set_user_bets (f : list bet → list bet) (d : DB) : DB :=
  Db (user_tokens d) (predictions d) (f (user_bets d)) (kalshi_bets d) (payout_requests d).
Definition set_kalshi_bets (f : list kalshi_bet → list kalshi_bet) (d : DB) : DB :=
  Db (user_tokens d) (predictions d) (user_bets d) (f (kalshi_bets d)) (payout_requests d).
Definition set_payout_requests (f : list payout_request → list payout_request) (d : DB) : DB :=
  Db (user_tokens d) (predictions d) (user_bets d) (kalshi_bets d) (f (payout_requests d)).

(** ** Errors and responses *)

(** What a handler throws or answers with: the messages of the source,
    plus the errors PostgreSQL raises. *)
Inductive error :=
  | MissingRequiredFields
  | PositionMustBeYesOrNo
  | InvalidBetAmount
  | PredictionNotFound
  | BettingIsClosed              (* 'Betting is closed for this prediction' *)
  | BettingPeriodEnded           (* 'Betting period has ended' *)
  | MinimumBetIs (min : Z)       (* `Minimum bet is ${min_bet} tokens` *)
  | MaximumBetIs (max : Z)       (* `Maximum bet is ${max_bet} tokens` *)
  | AlreadyPlacedBet             (* 'You have already placed a bet on this ...' *)
  | UserAccountNotFound
  | InsufficientTokens (have : Z)
  | AdminAuthenticationRequired
  | OutcomeMustBeYesOrNo
  | PredictionAlreadyResolved    (* 'Prediction already resolved' *)
  | MethodMustBeZelleOrPaypal
  | MinimumPayoutIs (min : Z)
  | UserNotFound
  | InsufficientBalance (have : Z)
  | InvalidStatus
  | MarketNotFoundOnKalshi
  | MarketNoLongerOpen (st : string)
  | KalshiRequestFailed          (* kalshiRequest threw *)
  | FailedToSyncResolutions
  | FailedToProcessPayout
  | FailedToFetchBalance
  | FailedToCreatePrediction
  | TypeError                    (* property read on undefined *)
  | QueryFailed                  (* the injected storage failure *)
  | IntegerOutOfRange            (* INTEGER column overflow *)
  | UniqueViolation              (* unique index *)
  | ForeignKeyViolation.

(** The spec's rejection classes. *)
Inductive rejection :=
  | ValidationError | MarketClosed | OutOfBounds | DuplicateBet
  | InsufficientFunds | AlreadyResolved | NotFound | PersistenceFailure.

Definition classify (e : error) : rejection :=
  match e with
  | BettingIsClosed | BettingPeriodEnded | MarketNoLongerOpen _ => MarketClosed
  | MinimumBetIs _ | MaximumBetIs _ => OutOfBounds
  | AlreadyPlacedBet => DuplicateBet
  | InsufficientTokens _ | InsufficientBalance _ => InsufficientFunds
  | PredictionAlreadyResolved => AlreadyResolved
  | PredictionNotFound | UserAccountNotFound | UserNotFound
  | MarketNotFoundOnKalshi => NotFound
  | QueryFailed | IntegerOutOfRange | UniqueViolation | ForeignKeyViolation
  | KalshiRequestFailed | FailedToSyncResolutions | FailedToProcessPayout
  | FailedToFetchBalance | FailedToCreatePrediction | TypeError => PersistenceFailure
  | _ => ValidationError
  end.

(** [res.json(body)] or [res.status(code).json({ error })]. *)
Inductive response (A : Type) :=
  | Json (body : A)
  | Status (code : Z) (e : error).
Arguments Json {A} body.
Arguments Status {A} code e.


(** ** The connection monad *)

(** [db] is what the statements of this connection see, [tx] the snapshot
    taken by [BEGIN] while a transaction is open, [issued] the number of
    statements sent so far, and [fault] the number of the statement at which
    the storage fails ([None]: it never does). *)
Record conn := Conn {
  db : DB;
  tx : option DB;
  fault : option nat;
  issued : nat
}.

Inductive completion (A : Type) :=
  | Return (a : A)
  | Throw (e : error).
Arguments Return {A} a.
Arguments Throw {A} e.

Definition M (A : Type) : Type := conn → completion A * conn.

Definition ret {A} (a : A) : M A := λ c, (Return a, c).

Definition bind {A B} (m : M A) (f : A → M B) : M B := λ c,
  match m c with
  | (Return a, c') => f a c'
  | (Throw e, c') => (Throw e, c')
  end.

Definition throw {A} (e : error) : M A := λ c, (Throw e, c).

(** [try { body } catch (error) { handler(error) }] *)
Definition try_catch {A} (body : M A) (handler : error → M A) : M A := λ c,
  match body c with
  | (Return a, c') => (Return a, c')
  | (Throw e, c') => handler e c'
  end.

Notation "x <- m ;; k" := (bind m (λ x, k))
  (at level 100, m at next level, right associativity).
Notation "m ;;; k" := (bind m (λ _, k))
  (at level 100, right associativity).

(** [if (cond) throw new Error(e)] *)
Definition throw_if (cond : bool) (e : error) : M unit :=
  if cond then throw e else ret tt.

(** The connection once one more statement has been sent. *)
Definition sent (c : conn) : conn :=
  Conn (db c) (tx c) (fault c) (S (issued c)).

(** One round trip to the server: it fails when its number is [fault]. *)
Definition tick : M unit := λ c,
  if bool_decide (fault c = Some (issued c))
  then (Throw QueryFailed, sent c)
  else (Return tt, sent c).

(** A reading statement. *)
Definition query {A} (f : DB → A) : M A :=
  tick ;;; λ c, (Return (f (db c)), c).

(** A writing statement; the server may refuse it. *)
Definition exec (f : DB → completion DB) : M unit :=
  tick ;;; λ c,
    match f (db c) with
    | Return d => (Return tt, Conn d (tx c) (fault c) (issued c))
    | Throw e => (Throw e, c)
    end.

Definition BEGIN : M unit :=
  tick ;;; λ c, (Return tt, Conn (db c) (Some (db c)) (fault c) (issued c)).

Definition COMMIT : M unit :=
  tick ;;; λ c, (Return tt, Conn (db c) None (fault c) (issued c)).

(** The server restores the snapshot whether or not the client hears back;
    outside a transaction [ROLLBACK] does nothing. *)
Definition ROLLBACK : M unit := λ c,
  match tx c with
  | Some snapshot => (Return tt, Conn snapshot None (fault c) (issued c))
  | None => (Return tt, c)
  end.

(** [for (const x of rows) { await body(x) }] *)
Fixpoint for_each {A} (rows : list A) (body : A → M unit) : M unit :=
  match rows with
  | [] => ret tt
  | x :: rest => body x ;;; for_each rest body
  end.

(** What is durable once the handler has returned: an open transaction is
    lost with the connection. *)
Definition committed (c : conn) : DB :=
  match tx c with
  | Some snapshot => snapshot
  | None => db c
  end.

(** Run a handler against database [d]; the storage fails at statement
    number [f] of the run (counting from 0), or never when [f] is [None]. *)
Definition run {A} (m : M A) (f : option nat) (d : DB) : completion A * DB :=
  let '(r, c) := m (Conn d None f 0) in (r, committed c).

(** ** INTEGER columns *)

Definition int4 (z : Z) : bool := (-2147483648 <=? z) && (z <=? 2147483647).

Definition account_int4 (a : account) : bool :=
  int4 (balance a) && int4 (total_purchased a) && int4 (total_won a) && int4 (total_lost a).

(** [UPDATE user_tokens SET ... WHERE user_email = $n]: no row, no change. *)
Definition update_user_tokens (email : string) (f : account → account) (d : DB) : completion DB :=
  match user_tokens d !! email with
  | None => Return d
  | Some a =>
      if account_int4 (f a)
      then Return (set_user_tokens (insert email (f a)) d)
      else Throw IntegerOutOfRange
  end.

Definition add_balance (n : Z) (a : account) : account :=
  Account (balance a + n) (total_purchased a) (total_won a) (total_lost a).
Definition add_total_purchased (n : Z) (a : account) : account :=
  Account (balance a) (total_purchased a + n) (total_won a) (total_lost a).
Definition add_total_won (n : Z) (a : account) : account :=
  Account (balance a) (total_purchased a) (total_won a + n) (total_lost a).
Definition add_total_lost (n : Z) (a : account) : account :=
  Account (balance a) (total_purchased a) (total_won a) (total_lost a + n).

(** The next value of a SERIAL column. *)
Definition next_id (ids : list Z) : Z := 1 + foldr Z.max 0 ids.

(** ** Statements *)

(** A statement that writes and returns rows ([RETURNING *]). *)
Definition exec_returning {A} (f : DB → completion (A * DB)) : M A :=
  tick ;;; λ c,
    match f (db c) with
    | Return (a, d) => (Return a, Conn d (tx c) (fault c) (issued c))
    | Throw e => (Throw e, c)
    end.

(** [rows.length === 0] guards: the first row, or the given error. *)
Definition first_row {A} (rows : option A) (e : error) : M A :=
  match rows with
  | Some r => ret r
  | None => throw e
  end.

(** Columns of [user_tokens] that the handlers increment. *)
Inductive user_tokens_column :=
  col_balance | col_total_purchased | col_total_won | col_total_lost.

Definition get_column (c : user_tokens_column) (a : account) : Z :=
  match c with
  | col_balance => balance a
  | col_total_purchased => total_purchased a
  | col_total_won => total_won a
  | col_total_lost => total_lost a
  end.

Definition add_column (c : user_tokens_column) (n : Z) (a : account) : account :=
  match c with
  | col_balance => add_balance n a
  | col_total_purchased => add_total_purchased n a
  | col_total_won => add_total_won n a
  | col_total_lost => add_total_lost n a
  end.

(** [SET col = col + $i, ...] on one row: every parameter and every new
    value must be an INTEGER. *)
Fixpoint add_columns (sets : list (user_tokens_column * Z)) (a : account) : completion account :=
  match sets with
  | [] => Return a
  | (c, n) :: rest =>
      if int4 n && int4 (get_column c a + n)
      then add_columns rest (add_column c n a)
      else Throw IntegerOutOfRange
  end.

(** [UPDATE user_tokens SET col = col + $i, ... WHERE user_email = $n];
    a missing row is not an error. *)
Definition UPDATE_user_tokens (sets : list (user_tokens_column * Z)) (email : string)
    (d : DB) : completion DB :=
  match user_tokens d !! email with
  | None => Return d
  | Some a =>
      match add_columns sets a with
      | Return a' => Return (set_user_tokens (insert email a') d)
      | Throw e => Throw e
      end
  end.

(** [UPDATE predictions SET ... WHERE id = $n] for the columns that are not
    counters. *)
Definition UPDATE_predictions (f : prediction → prediction) (id : Z) (d : DB) : completion DB :=
  match predictions d !! id with
  | None => Return d
  | Some p => Return (set_predictions (insert id (f p)) d)
  end.

Definition add_volume (pos : position) (n : Z) (p : prediction) : prediction :=
  Prediction (subcategory p) (ticker p) (range_pct p)
    (yes_payout_multiplier p) (no_payout_multiplier p) (min_bet p) (max_bet p)
    (opens_at p) (closes_at p) (resolves_at p) (status p) (outcome p)
    (resolution_source p) (resolved_at p) (resolved_by p)
    (match pos with Yes => total_yes_tokens p + n | No => total_yes_tokens p end)
    (match pos with Yes => total_no_tokens p | No => total_no_tokens p + n end)
    (total_bettors p + 1).

Definition volume (pos : position) (p : prediction) : Z :=
  match pos with Yes => total_yes_tokens p | No => total_no_tokens p end.

(** [UPDATE predictions SET ${volumeColumn} = ${volumeColumn} + $1,
    total_bettors = total_bettors + 1 WHERE id = $2] *)
Definition UPDATE_predictions_volume (pos : position) (n : Z) (id : Z) (d : DB) : completion DB :=
  match predictions d !! id with
  | None => Return d
  | Some p =>
      if int4 n && int4 (volume pos p + n) && int4 (total_bettors p + 1)
      then Return (set_predictions (insert id (add_volume pos n p)) d)
      else Throw IntegerOutOfRange
  end.

Definition set_status (s : market_status) (p : prediction) : prediction :=
  Prediction (subcategory p) (ticker p) (range_pct p)
    (yes_payout_multiplier p) (no_payout_multiplier p) (min_bet p) (max_bet p)
    (opens_at p) (closes_at p) (resolves_at p) s (outcome p)
    (resolution_source p) (resolved_at p) (resolved_by p)
    (total_yes_tokens p) (total_no_tokens p) (total_bettors p).

(** [SET status = 'resolved', outcome = $1, resolution_source = $2,
    resolved_at = NOW(), resolved_by = $3] *)
Definition set_resolved (o : position) (src : string) (now : Z) (who : string)
    (p : prediction) : prediction :=
  Prediction (subcategory p) (ticker p) (range_pct p)
    (yes_payout_multiplier p) (no_payout_multiplier p) (min_bet p) (max_bet p)
    (opens_at p) (closes_at p) (resolves_at p) S_resolved (Some o)
    src (Some now) who
    (total_yes_tokens p) (total_no_tokens p) (total_bettors p).

(** [SELECT * FROM user_bets WHERE prediction_id = $1 AND user_email = $2] *)
Definition SELECT_user_bet (pid : Z) (email : string) (d : DB) : list bet :=
  filter (λ b, prediction_id b = pid ∧ user_email b = email) (user_bets d).

(** [SELECT * FROM user_bets WHERE prediction_id = $1 AND status = 'active'] *)
Definition SELECT_active_bets (pid : Z) (d : DB) : list bet :=
  filter (λ b, prediction_id b = pid ∧ bet_state b = B_active) (user_bets d).

(** [INSERT INTO user_bets (...) VALUES (...) RETURNING *]: the row gets
    the next id and the column defaults; the unique index
    [idx_user_bets_unique] on (user_email, prediction_id) and the two foreign
    keys are checked. *)
Definition INSERT_user_bets (email : string) (pid : Z) (pos : position)
    (wagered payout : Z) (mult : Q) (d : DB) : completion (bet * DB) :=
  if negb (int4 wagered && int4 payout) then Throw IntegerOutOfRange
  else if (0 <? length (SELECT_user_bet pid email d))%nat then Throw UniqueViolation
  else if negb (bool_decide (is_Some (user_tokens d !! email))) then Throw ForeignKeyViolation
  else if negb (bool_decide (is_Some (predictions d !! pid))) then Throw ForeignKeyViolation
  else
    let row := Bet (next_id (bet_id <$> user_bets d)) email pid pos wagered payout mult
                   B_active 0 false in
    Return (row, set_user_bets (λ l, l ++ [row]) d).

Definition settled (won : bool) (tokensWon : Z) (b : bet) : bet :=
  Bet (bet_id b) (user_email b) (prediction_id b) (bet_position b)
      (tokens_wagered b) (potential_payout b) (payout_multiplier b)
      (if won then B_won else B_lost) tokensWon true.

(** [UPDATE user_bets SET status = $1, tokens_won = $2,
    payout_processed = TRUE, payout_processed_at = NOW() WHERE id = $3] *)
Definition UPDATE_user_bets (won : bool) (tokensWon : Z) (id : Z) (d : DB) : completion DB :=
  if int4 tokensWon
  then Return (set_user_bets
                 (map (λ b, if bool_decide (bet_id b = id) then settled won tokensWon b else b)) d)
  else Throw IntegerOutOfRange.

(** ** The predictions router ([routes/alpaca.js]) *)

Definition MIN_PAYOUT_TOKENS : Z := 1000.
Definition TOKENS_TO_USD_RATE : Q := (4 # 1000)%Q.

(** [!x] on a string and on a number of the request body; an absent field
    reads as the empty string or 0. *)
Definition missing_str (s : string) : bool := String.eqb s "".
Definition missing_num (z : Z) : bool := z =? 0.

(** [getOrCreateTokenAccount(pool, email)] *)
Definition getOrCreateTokenAccount (email : string) : M account :=
  result <- query (λ d, user_tokens d !! email) ;;
  match result with
  | Some row => ret row
  | None =>
      exec_returning (λ d,
        match user_tokens d !! email with
        | Some _ => Throw UniqueViolation
        | None =>
            let row := Account 0 0 0 0 in
            Return (row, set_user_tokens (insert email row) d)
        end)
  end.

(** [GET /tokens/balance] *)
Definition get_tokens_balance (email : string) : M (response account) :=
  if missing_str email then ret (Status 400 MissingRequiredFields)
  else
    try_catch
      (account <- getOrCreateTokenAccount email ;;
       ret (Json account))
      (λ _, ret (Status 500 FailedToFetchBalance)).

(** [POST /tokens/webhook] for a completed token purchase of [tokensToAdd]
    tokens by [user_email]: the funds-in event.  The first statement marks
    the row of [token_purchases], a table that is not modelled. *)
Definition post_tokens_webhook (user_email : string) (tokensToAdd : Z) : M (response unit) :=
  try_catch
    (query (λ _, tt) ;;;
     exec (UPDATE_user_tokens [(col_balance, tokensToAdd); (col_total_purchased, tokensToAdd)]
             user_email))
    (λ _, ret tt) ;;;
  ret (Json tt).

(** The body of [POST /bet]. *)
Record bet_request := BetRequest {
  req_email : string;
  req_predictionId : Z;
  req_position : string;
  req_amount : Z
}.

Record bet_reply := BetReply {
  reply_bet : bet;
  newBalance : Z
}.

(** [Math.floor(tokensWagered * multiplier)], in exact arithmetic. *)
Definition potentialPayout (tokensWagered : Z) (multiplier : Q) : Z :=
  Qfloor (inject_Z tokensWagered * multiplier).

(** [POST /bet]; [now] is [new Date()].  The amount is the integer
    [parseInt] returns, so [isNaN] is never true in this embedding. *)
Definition post_bet (now : Z) (req : bet_request) : M (response bet_reply) :=
  let email := req_email req in
  let predictionId := req_predictionId req in
  if missing_str email || missing_num predictionId
     || missing_str (req_position req) || missing_num (req_amount req)
  then ret (Status 400 MissingRequiredFields)
  else match parse_position (req_position req) with
  | None => ret (Status 400 PositionMustBeYesOrNo)
  | Some position =>
    let tokensWagered := req_amount req in
    if tokensWagered <? 1 then ret (Status 400 InvalidBetAmount)
    else
      try_catch
        (BEGIN ;;;
         predictionResult <- query (λ d, predictions d !! predictionId) ;;
         prediction <- first_row predictionResult PredictionNotFound ;;
         throw_if (negb (market_status_eqb (status prediction) S_open)) BettingIsClosed ;;;
         throw_if (closes_at prediction <? now) BettingPeriodEnded ;;;
         throw_if (tokensWagered <? min_bet prediction) (MinimumBetIs (min_bet prediction)) ;;;
         throw_if (max_bet prediction <? tokensWagered) (MaximumBetIs (max_bet prediction)) ;;;
         existingBet <- query (SELECT_user_bet predictionId email) ;;
         throw_if (0 <? length existingBet)%nat AlreadyPlacedBet ;;;
         userResult <- query (λ d, user_tokens d !! email) ;;
         user <- first_row userResult UserAccountNotFound ;;
         throw_if (balance user <? tokensWagered) (InsufficientTokens (balance user)) ;;;
         let multiplier :=
           match position with
           | Yes => yes_payout_multiplier prediction
           | No => no_payout_multiplier prediction
           end in
         let payout := potentialPayout tokensWagered multiplier in
         exec (UPDATE_user_tokens [(col_balance, - tokensWagered)] email) ;;;
         betResult <- exec_returning
           (INSERT_user_bets email predictionId position tokensWagered payout multiplier) ;;
         exec (UPDATE_predictions_volume position tokensWagered predictionId) ;;;
         COMMIT ;;;
         updatedUser <- query (λ d, user_tokens d !! email) ;;
         row <- first_row updatedUser TypeError ;;
         ret (Json (BetReply betResult (balance row))))
        (λ e, ROLLBACK ;;; ret (Status 400 e))
  end.

(** The two statements issued for one wager when its market is resolved as
    [outcome]; the loop bodies of [POST /:id/resolve] and of
    [processBetsForPrediction] are this same pair.  Returns [won]. *)
Definition settle_bet (outcome : position) (bet : bet) : M bool :=
  let won := position_eqb (bet_position bet) outcome in
  let tokensWon := if won then potential_payout bet else 0 in
  exec (UPDATE_user_bets won tokensWon (bet_id bet)) ;;;
  (if won
   then exec (UPDATE_user_tokens
                [(col_balance, tokensWon); (col_total_won, tokensWon - tokens_wagered bet)]
                (user_email bet))
   else exec (UPDATE_user_tokens [(col_total_lost, tokens_wagered bet)] (user_email bet))) ;;;
  ret won.

(** The body of [POST /:id/resolve]. *)
Record resolve_request := ResolveRequest {
  res_id : Z;
  res_outcome : string;
  res_adminEmail : string;
  res_source : string
}.

(** [source || 'Manual resolution'] *)
Definition source_or_default (source : string) : string :=
  if missing_str source then "Manual resolution" else source.

(** [POST /:id/resolve]; the reply carries [betsProcessed]. *)
Definition post_resolve (now : Z) (req : resolve_request) : M (response nat) :=
  let id := res_id req in
  if missing_str (res_adminEmail req) then ret (Status 401 AdminAuthenticationRequired)
  else match parse_position (res_outcome req) with
  | None => ret (Status 400 OutcomeMustBeYesOrNo)
  | Some outcome =>
      try_catch
        (BEGIN ;;;
         predictionResult <- query (λ d, predictions d !! id) ;;
         prediction <- first_row predictionResult PredictionNotFound ;;
         throw_if (market_status_eqb (status prediction) S_resolved) PredictionAlreadyResolved ;;;
         exec (UPDATE_predictions
                 (set_resolved outcome (source_or_default (res_source req)) now
                    (res_adminEmail req)) id) ;;;
         betsResult <- query (SELECT_active_bets id) ;;
         for_each betsResult (λ bet, settle_bet outcome bet ;;; ret tt) ;;;
         COMMIT ;;;
         ret (Json (length betsResult)))
        (λ e, ROLLBACK ;;; ret (Status 400 e))
  end.

(** The body of [POST /payout/request]. *)
Record payout_body := PayoutBody {
  pay_email : string;
  pay_tokensAmount : Z;
  pay_method : string;
  pay_destination : string
}.

(** [INSERT INTO payout_requests (...) VALUES (...) RETURNING *] *)
Definition INSERT_payout_requests (email : string) (tokens : Z) (usd : Q)
    (method destination : string) (d : DB) : completion (payout_request * DB) :=
  if negb (int4 tokens) then Throw IntegerOutOfRange
  else if negb (bool_decide (is_Some (user_tokens d !! email))) then Throw ForeignKeyViolation
  else
    let row := PayoutRequest (next_id (pr_id <$> payout_requests d)) email tokens usd
                 method destination P_pending "" "" "" in
    Return (row, set_payout_requests (λ l, l ++ [row]) d).

(** [POST /payout/request] *)
Definition post_payout_request (req : payout_body) : M (response payout_request) :=
  let email := pay_email req in
  if missing_str email || missing_num (pay_tokensAmount req)
     || missing_str (pay_method req) || missing_str (pay_destination req)
  then ret (Status 400 MissingRequiredFields)
  else if negb (String.eqb (pay_method req) "zelle" || String.eqb (pay_method req) "paypal")
  then ret (Status 400 MethodMustBeZelleOrPaypal)
  else
    let tokens := pay_tokensAmount req in
    if tokens <? MIN_PAYOUT_TOKENS then ret (Status 400 (MinimumPayoutIs MIN_PAYOUT_TOKENS))
    else
      try_catch
        (BEGIN ;;;
         userResult <- query (λ d, user_tokens d !! email) ;;
         user <- first_row userResult UserNotFound ;;
         throw_if (balance user <? tokens) (InsufficientBalance (balance user)) ;;;
         let usdAmount := (inject_Z tokens * TOKENS_TO_USD_RATE)%Q in
         exec (UPDATE_user_tokens [(col_balance, - tokens)] email) ;;;
         payoutResult <- exec_returning
           (INSERT_payout_requests email tokens usdAmount (pay_method req) (pay_destination req)) ;;
         COMMIT ;;;
         ret (Json payoutResult))
        (λ e, ROLLBACK ;;; ret (Status 400 e)).

(** The body of [POST /admin/create]. *)
Record create_body := CreateBody {
  new_adminEmail : string;
  new_category : string;
  new_subcategory : string;
  new_title : string;
  new_ticker : string;
  new_range_pct : option Q;
  new_yesMultiplier : Q;
  new_noMultiplier : Q;
  new_minBet : Z;
  new_maxBet : Z;
  new_opensAt : Z;
  new_closesAt : Z;
  new_resolvesAt : Z
}.

(** [INSERT INTO predictions (...) VALUES (..., $status, ...) RETURNING *];
    the generator inserts with status ['upcoming'], the admin route with
    ['open']. *)
Definition INSERT_predictions (st : market_status) (b : create_body) (d : DB)
    : completion ((Z * prediction) * DB) :=
  if negb (int4 (new_minBet b) && int4 (new_maxBet b)) then Throw IntegerOutOfRange
  else
    let id := next_id ((map_to_list (predictions d)).*1) in
    let row := Prediction (new_subcategory b) (new_ticker b) (new_range_pct b)
                 (new_yesMultiplier b) (new_noMultiplier b) (new_minBet b) (new_maxBet b)
                 (new_opensAt b) (new_closesAt b) (new_resolvesAt b) st None
                 "" None "" 0 0 0 in
    Return ((id, row), set_predictions (insert id row) d).

(** [POST /admin/create]; [opensAt || new Date()] is resolved by the caller. *)
Definition post_admin_create (b : create_body) : M (response (Z * prediction)) :=
  if missing_str (new_adminEmail b) then ret (Status 401 AdminAuthenticationRequired)
  else if missing_str (new_title b) || missing_str (new_category b)
          || missing_num (new_closesAt b) || missing_num (new_resolvesAt b)
  then ret (Status 400 MissingRequiredFields)
  else
    try_catch
      (result <- exec_returning (INSERT_predictions S_open b) ;;
       ret (Json result))
      (λ _, ret (Status 500 FailedToCreatePrediction)).

(** The body of [POST /admin/process-payout]. *)
Record process_body := ProcessBody {
  proc_payoutId : Z;
  proc_adminEmail : string;
  proc_status : string;
  proc_transactionReference : string;
  proc_rejectionReason : string
}.

Definition parse_payout_status (s : string) : option payout_status :=
  if String.eqb s "approved" then Some P_approved
  else if String.eqb s "completed" then Some P_completed
  else if String.eqb s "rejected" then Some P_rejected
  else None.

Definition reviewed (st : payout_status) (b : process_body) (r : payout_request)
    : payout_request :=
  PayoutRequest (pr_id r) (pr_user_email r) (tokens_amount r) (usd_amount r)
    (payout_method r) (payout_destination r) st
    (proc_adminEmail b) (proc_transactionReference b) (proc_rejectionReason b).

(** [SELECT * FROM payout_requests WHERE id = $1], first row. *)
Definition SELECT_payout_request (id : Z) (d : DB) : option payout_request :=
  head (filter (λ r, pr_id r = id) (payout_requests d)).

(** [UPDATE payout_requests SET status = $1, reviewed_by = $2, ...
    WHERE id = $5] *)
Definition UPDATE_payout_requests (st : payout_status) (b : process_body) (d : DB)
    : completion DB :=
  Return (set_payout_requests
            (map (λ r, if bool_decide (pr_id r = proc_payoutId b) then reviewed st b r else r)) d).

(** [POST /admin/process-payout]: every statement goes to the pool on its
    own, there is no transaction. *)
Definition post_admin_process_payout (b : process_body) : M (response unit) :=
  match parse_payout_status (proc_status b) with
  | None => ret (Status 400 InvalidStatus)
  | Some st =>
      try_catch
        ((match st with
          | P_rejected =>
              payoutResult <- query (SELECT_payout_request (proc_payoutId b)) ;;
              match payoutResult with
              | Some payout =>
                  exec (UPDATE_user_tokens [(col_balance, tokens_amount payout)]
                          (pr_user_email payout))
              | None => ret tt
              end
          | _ => ret tt
          end) ;;;
         exec (UPDATE_payout_requests st b) ;;;
         ret (Json tt))
        (λ _, ret (Status 500 FailedToProcessPayout))
  end.

(** ** The auto-resolver ([scripts/resolve-predictions.js]) *)

(** What [getQuote] keeps of a Yahoo Finance answer. *)
Record quote := Quote {
  q_open : Q;
  q_close : Q
}.

(** The price oracle: [getQuote(ticker)] ([None] when it returns [null])
    and the five-day chart read by [resolveWeeklyRange], as
    (mondayOpen, fridayClose). *)
Record oracle := Oracle {
  getQuote : string → option quote;
  getWeek : string → option (Q * Q)
}.

(** [isGreen: close > open] *)
Definition isGreen (q : quote) : bool := negb (Qle_bool (q_close q) (q_open q)).

(** [resolveDailyCloseGreen(prediction)]; the source text is not modelled. *)
Definition resolveDailyCloseGreen (o : oracle) (p : prediction) : option (position * string) :=
  match getQuote o (ticker p) with
  | None => None
  | Some q => Some (if isGreen q then Yes else No, "Yahoo Finance")
  end.

(** [resolveWeeklyRange(prediction)], in exact arithmetic. *)
Definition resolveWeeklyRange (o : oracle) (p : prediction) : option (position * string) :=
  match getQuote o (ticker p) with
  | None => None
  | Some _ =>
      let targetRange :=
        match range_pct p with
        | Some r => if Qeq_bool r 0 then 5%Q else r
        | None => 5%Q
        end in
      match getWeek o (ticker p) with
      | None => None
      | Some (mondayOpen, fridayClose) =>
          let weeklyChange := ((fridayClose - mondayOpen) / mondayOpen * 100)%Q in
          let movedEnough := Qle_bool targetRange (Qabs weeklyChange) in
          Some (if movedEnough then Yes else No, "Yahoo Finance")
      end
  end.

(** [{ winners, losers, totalPaidOut, totalBets }] *)
Record bet_results := BetResults {
  winners : nat;
  losers : nat;
  totalPaidOut : Z;
  totalBets : nat
}.

Definition count_results (outcome : position) (rows : list bet) : bet_results :=
  let won := filter (λ b, bet_position b = outcome) rows in
  BetResults (length won) (length rows - length won)
             (foldr Z.add 0 (potential_payout <$> won)) (length rows).

(** [processBetsForPrediction(predictionId, outcome)]: its own transaction
    on a fresh client; the error is thrown on after the rollback.  The
    counters the loop bumps are computed from the rows once it is done. *)
Definition processBetsForPrediction (predictionId : Z) (outcome : position) : M bet_results :=
  try_catch
    (BEGIN ;;;
     betsResult <- query (SELECT_active_bets predictionId) ;;
     for_each betsResult (λ bet, settle_bet outcome bet ;;; ret tt) ;;;
     COMMIT ;;;
     ret (count_results outcome betsResult))
    (λ e, ROLLBACK ;;; throw e).

(** [ORDER BY resolves_at ASC] *)
Definition by_resolves_at (x y : Z * prediction) : Prop :=
  resolves_at x.2 ≤ resolves_at y.2.

Global Instance by_resolves_at_dec x y : Decision (by_resolves_at x y).
Proof. unfold by_resolves_at. apply _. Defined.

(** [SELECT * FROM predictions WHERE status = 'closed' AND outcome IS NULL
    AND resolves_at <= NOW() ORDER BY resolves_at ASC] *)
Definition SELECT_ready_predictions (now : Z) (d : DB) : list (Z * prediction) :=
  merge_sort by_resolves_at
    (filter (λ x, status x.2 = S_closed ∧ outcome x.2 = None ∧ resolves_at x.2 ≤ now)
       (map_to_list (predictions d))).

(** The [for] loop of [resolveReadyPredictions]; [resolved] and [failed]
    are its two counters. *)
Fixpoint resolve_each (now : Z) (o : oracle) (rows : list (Z * prediction))
    (resolved failed : nat) : M (nat * nat) :=
  match rows with
  | [] => ret (resolved, failed)
  | (id, prediction) :: rest =>
      let resolution :=
        if String.eqb (subcategory prediction) "close_green"
        then Some (resolveDailyCloseGreen o prediction)
        else if String.eqb (subcategory prediction) "range"
        then Some (resolveWeeklyRange o prediction)
        else None in
      match resolution with
      | None => resolve_each now o rest resolved failed
      | Some None => resolve_each now o rest resolved (S failed)
      | Some (Some (outcome, source)) =>
          exec (UPDATE_predictions (set_resolved outcome source now "auto-resolver") id) ;;;
          processBetsForPrediction id outcome ;;;
          resolve_each now o rest (S resolved) failed
      end
  end.

(** [{ resolved, failed }] or [{ success: false, error }] *)
Inductive resolution_report :=
  | Resolved (resolved failed : nat)
  | ResolutionFailed (e : error).

(** [resolveReadyPredictions()] *)
Definition resolveReadyPredictions (now : Z) (o : oracle) : M resolution_report :=
  try_catch
    (readyResult <- query (SELECT_ready_predictions now) ;;
     match readyResult with
     | [] => ret (Resolved 0 0)
     | _ =>
         counts <- resolve_each now o readyResult 0%nat 0%nat ;;
         ret (Resolved counts.1 counts.2)
     end)
    (λ e, ret (ResolutionFailed e)).

(** [manualResolve(predictionId, outcome, adminEmail, source)] *)
Definition manualResolve (now : Z) (predictionId : Z) (outcome : string)
    (adminEmail source : string) : M bet_results :=
  match parse_position outcome with
  | None => throw OutcomeMustBeYesOrNo
  | Some outcome =>
      exec (UPDATE_predictions (set_resolved outcome source now adminEmail) predictionId) ;;;
      processBetsForPrediction predictionId outcome
  end.

(** ** The status sweep ([scripts/generate-predictions.js]) *)

Definition UPDATE_predictions_where (cond : prediction → bool) (f : prediction → prediction)
    (d : DB) : completion DB :=
  Return (set_predictions (fmap (λ p, if cond p then f p else p)) d).

(** [updatePredictionStatuses()] *)
Definition updatePredictionStatuses (now : Z) : M unit :=
  exec (UPDATE_predictions_where
          (λ p, market_status_eqb (status p) S_upcoming
                && (opens_at p <=? now) && (now <? closes_at p))
          (set_status S_open)) ;;;
  exec (UPDATE_predictions_where
          (λ p, market_status_eqb (status p) S_open && (closes_at p <=? now))
          (set_status S_closed)).

(** ** The Kalshi router ([routes/kalshi.js]) *)

(** What the handlers read of [marketData.market]: an absent [result] is
    the empty string, an absent [yes_ask] is 0. *)
Record kalshi_market := KalshiMarket {
  km_status : string;
  km_result : string;
  yes_ask : Z;
  km_event_ticker : string;
  km_title : string
}.

(** [kalshiRequest('GET', `/markets/${ticker}`)]: [None] when the request
    throws or the answer has no [market]. *)
Definition kalshi_api : Type := string → option kalshi_market.

(** The body of [POST /api/kalshi/bet]. *)
Record kalshi_bet_request := KalshiBetRequest {
  kreq_email : string;
  kreq_marketTicker : string;
  kreq_position : string;
  kreq_amount : Z
}.

Record kalshi_bet_reply := KalshiBetReply {
  kreply_bet : kalshi_bet;
  kreply_newBalance : Z
}.

Definition Qpositive (q : Q) : bool := negb (Qle_bool q 0).

(** The odds taken from the current Kalshi price, in exact arithmetic. *)
Definition kalshi_multiplier (market : kalshi_market) (position : position) : Q :=
  let yesPrice := if missing_num (yes_ask market) then (1 # 2)%Q
                  else (inject_Z (yes_ask market) / 100)%Q in
  let noPrice := (1 - yesPrice)%Q in
  match position with
  | Yes => if Qpositive yesPrice then (1 / yesPrice)%Q else 2%Q
  | No => if Qpositive noPrice then (1 / noPrice)%Q else 2%Q
  end.

(** [SELECT * FROM kalshi_bets WHERE kalshi_ticker = $1 AND user_email = $2] *)
Definition SELECT_kalshi_bet (tk email : string) (d : DB) : list kalshi_bet :=
  filter (λ b, kalshi_ticker b = tk ∧ kb_user_email b = email) (kalshi_bets d).

(** [INSERT INTO kalshi_bets (...) VALUES (...) RETURNING *], under the
    unique index on (user_email, kalshi_ticker) and the foreign key to
    [user_tokens]. *)
Definition INSERT_kalshi_bets (email tk : string) (pos : position) (wagered payout : Z)
    (mult : Q) (kstatus : string) (d : DB) : completion (kalshi_bet * DB) :=
  if negb (int4 wagered && int4 payout) then Throw IntegerOutOfRange
  else if (0 <? length (SELECT_kalshi_bet tk email d))%nat then Throw UniqueViolation
  else if negb (bool_decide (is_Some (user_tokens d !! email))) then Throw ForeignKeyViolation
  else
    let row := KalshiBet (next_id (kb_id <$> kalshi_bets d)) email tk pos wagered payout mult
                 kstatus B_active 0 in
    Return (row, set_kalshi_bets (λ l, l ++ [row]) d).

(** [POST /api/kalshi/bet].  [CREATE TABLE IF NOT EXISTS] and
    [ALTER TABLE ... ADD COLUMN IF NOT EXISTS] are two round trips that
    change no row; a failure of the second one is swallowed by the handler
    but leaves the transaction aborted, so the next statement fails: it is
    modelled as failing there. *)
Definition kalshi_post_bet (api : kalshi_api) (req : kalshi_bet_request)
    : M (response kalshi_bet_reply) :=
  let email := kreq_email req in
  let marketTicker := kreq_marketTicker req in
  if missing_str email || missing_str marketTicker
     || missing_str (kreq_position req) || missing_num (kreq_amount req)
  then ret (Status 400 MissingRequiredFields)
  else match parse_position (kreq_position req) with
  | None => ret (Status 400 PositionMustBeYesOrNo)
  | Some position =>
    let tokensWagered := kreq_amount req in
    if tokensWagered <? 10 then ret (Status 400 (MinimumBetIs 10))
    else
      try_catch
        (BEGIN ;;;
         market <- first_row (api marketTicker) MarketNotFoundOnKalshi ;;
         throw_if (negb (String.eqb (km_status market) "open"
                         || String.eqb (km_status market) "active"))
                  (MarketNoLongerOpen (km_status market)) ;;;
         query (λ _, tt) ;;;
         query (λ _, tt) ;;;
         let multiplier := kalshi_multiplier market position in
         userResult <- query (λ d, user_tokens d !! email) ;;
         user <- first_row userResult UserAccountNotFound ;;
         throw_if (balance user <? tokensWagered) (InsufficientTokens (balance user)) ;;;
         existingBet <- query (SELECT_kalshi_bet marketTicker email) ;;
         throw_if (0 <? length existingBet)%nat AlreadyPlacedBet ;;;
         let payout := potentialPayout tokensWagered multiplier in
         exec (UPDATE_user_tokens [(col_balance, - tokensWagered)] email) ;;;
         betResult <- exec_returning
           (INSERT_kalshi_bets email marketTicker position tokensWagered payout multiplier
              (km_status market)) ;;
         COMMIT ;;;
         updatedUser <- query (λ d, user_tokens d !! email) ;;
         row <- first_row updatedUser TypeError ;;
         ret (Json (KalshiBetReply betResult (balance row))))
        (λ e, ROLLBACK ;;; ret (Status 400 e))
  end.

(** [SELECT DISTINCT kalshi_ticker FROM kalshi_bets WHERE status = 'active'] *)
Definition SELECT_active_tickers (d : DB) : list string :=
  remove_dups (kalshi_ticker <$> filter (λ b, kb_state b = B_active) (kalshi_bets d)).

(** [SELECT * FROM kalshi_bets WHERE kalshi_ticker = $1 AND status = 'active'] *)
Definition SELECT_active_kalshi_bets (tk : string) (d : DB) : list kalshi_bet :=
  filter (λ b, kalshi_ticker b = tk ∧ kb_state b = B_active) (kalshi_bets d).

Definition kalshi_settled (won : bool) (tokensWon : Z) (b : kalshi_bet) : kalshi_bet :=
  KalshiBet (kb_id b) (kb_user_email b) (kalshi_ticker b) (kb_position b)
    (kb_tokens_wagered b) (kb_potential_payout b) (kb_payout_multiplier b)
    "finalized" (if won then B_won else B_lost) tokensWon.

(** [UPDATE kalshi_bets SET status = $1, tokens_won = $2,
    kalshi_status = 'finalized', resolved_at = NOW() WHERE id = $3] *)
Definition UPDATE_kalshi_bets (won : bool) (tokensWon : Z) (id : Z) (d : DB) : completion DB :=
  if int4 tokensWon
  then Return (set_kalshi_bets
                 (map (λ b, if bool_decide (kb_id b = id)
                            then kalshi_settled won tokensWon b else b)) d)
  else Throw IntegerOutOfRange.

(** The body of the inner loop of [sync-resolutions]: each statement goes
    to the pool on its own. *)
Definition sync_bet (outcome : string) (bet : kalshi_bet) : M unit :=
  let won := String.eqb (position_str (kb_position bet)) outcome in
  let tokensWon := if won then kb_potential_payout bet else 0 in
  exec (UPDATE_kalshi_bets won tokensWon (kb_id bet)) ;;;
  if won
  then exec (UPDATE_user_tokens [(col_balance, tokensWon); (col_total_won, tokensWon)]
               (kb_user_email bet))
  else exec (UPDATE_user_tokens [(col_total_lost, kb_tokens_wagered bet)]
               (kb_user_email bet)).

(** The body of the outer loop, with its own [try]/[catch] that only logs. *)
Definition sync_market (api : kalshi_api) (tk : string) : M unit :=
  try_catch
    (match api tk with
     | None => ret tt
     | Some market =>
         if String.eqb (km_status market) "finalized" || negb (missing_str (km_result market))
         then
           let outcome := km_result market in
           if negb (missing_str outcome)
           then
             bets <- query (SELECT_active_kalshi_bets tk) ;;
             for_each bets (sync_bet outcome)
           else ret tt
         else ret tt
     end)
    (λ _, ret tt).

(** [POST /api/kalshi/sync-resolutions]; the counters of the reply are not
    modelled. *)
Definition kalshi_post_sync_resolutions (api : kalshi_api) : M (response unit) :=
  try_catch
    (activeBets <- query SELECT_active_tickers ;;
     match activeBets with
     | [] => ret (Json tt)
     | _ =>
         for_each activeBets (sync_market api) ;;;
         ret (Json tt)
     end)
    (λ _, ret (Status 500 FailedToSyncResolutions)).

(** [createDailyPrediction] and [createWeeklyPrediction] of the generator:
    the look-up for an existing market of the day, then the insert with
    status ['upcoming']; errors are logged.  A skipped insert is the same as
    the call not being made. *)
Definition createPrediction (b : create_body) : M unit :=
  try_catch
    (query (λ _, tt) ;;;
     exec_returning (INSERT_predictions S_upcoming b) ;;;
     ret tt)
    (λ _, ret tt).

(** ** Operations *)

(** Everything that writes the ledger, the markets or the wagers. *)
Inductive operation :=
  | GetBalance (email : string)
  | FundsIn (email : string) (tokens : Z)
  | CreateMarket (b : create_body)
  | GenerateMarket (b : create_body)
  | Sweep (now : Z)
  | PlaceBet (now : Z) (req : bet_request)
  | AdminResolve (now : Z) (req : resolve_request)
  | AutoResolve (now : Z) (o : oracle)
  | ManualResolve (now : Z) (predictionId : Z) (outcome adminEmail source : string)
  | RequestPayout (req : payout_body)
  | ReviewPayout (b : process_body)
  | KalshiBet_ (api : kalshi_api) (req : kalshi_bet_request)
  | KalshiSync (api : kalshi_api).

(** The handler of an operation, its answer dropped. *)
Definition handler (op : operation) : M unit :=
  match op with
  | GetBalance email => get_tokens_balance email ;;; ret tt
  | FundsIn email tokens => post_tokens_webhook email tokens ;;; ret tt
  | CreateMarket b => post_admin_create b ;;; ret tt
  | GenerateMarket b => createPrediction b
  | Sweep now => updatePredictionStatuses now
  | PlaceBet now req => post_bet now req ;;; ret tt
  | AdminResolve now req => post_resolve now req ;;; ret tt
  | AutoResolve now o => resolveReadyPredictions now o ;;; ret tt
  | ManualResolve now id outcome admin source =>
      manualResolve now id outcome admin source ;;; ret tt
  | RequestPayout req => post_payout_request req ;;; ret tt
  | ReviewPayout b => post_admin_process_payout b ;;; ret tt
  | KalshiBet_ api req => kalshi_post_bet api req ;;; ret tt
  | KalshiSync api => kalshi_post_sync_resolutions api ;;; ret tt
  end.

(** The database after an operation with the failure injected at statement
    [f]. *)
Definition step (d : DB) (call : operation * option nat) : DB :=
  (run (handler call.1) call.2 d).2.

(** The database after a sequence of operations. *)
Definition steps (d : DB) (calls : list (operation * option nat)) : DB :=
  foldl step d calls.

(** ** Weakest preconditions *)

(** [wp m Q E c]: run from [c], the handler [m] either returns [a] in a
    connection satisfying [Q a] or throws [e] in one satisfying [E e]. *)
Definition wp {A} (m : M A) (Q : A → conn → Prop) (E : error → conn → Prop)
    (c : conn) : Prop :=
  match m c with
  | (Return a, c') => Q a c'
  | (Throw e, c') => E e c'
  end.

(** ** Sample data *)

(** An account holding 5000 tokens, and its first withdrawal of 2000. *)
Definition ann : string := "ann@example.com".
Definition ann_request : payout_request :=
  PayoutRequest 1 ann 2000 (inject_Z 2000 * TOKENS_TO_USD_RATE)%Q "paypal" "ann@paypal"
    P_pending "" "" "".
Definition ann_after_request : DB :=
  Db {[ ann := Account 3000 5000 0 0 ]} ∅ [] [] [ann_request].
Definition reject_first : process_body := ProcessBody 1 "admin@example.com" "rejected" "" "no".

(** ** What a successful bet leaves behind *)

Definition multiplier_for (pos : position) (p : prediction) : Q :=
  match pos with
  | Yes => yes_payout_multiplier p
  | No => no_payout_multiplier p
  end.

(** The wager [POST /bet] inserts. *)
Definition bet_row (req : bet_request) (pos : position) (p : prediction) (d : DB) : bet :=
  Bet (next_id (bet_id <$> user_bets d)) (req_email req) (req_predictionId req) pos
      (req_amount req) (potentialPayout (req_amount req) (multiplier_for pos p))
      (multiplier_for pos p) B_active 0 false.

(** The database once the three writes of [POST /bet] are committed. *)
Definition with_bet (req : bet_request) (pos : position) (p : prediction) (a : account)
    (d : DB) : DB :=
  set_predictions (insert (req_predictionId req) (add_volume pos (req_amount req) p))
    (set_user_bets (λ l, l ++ [bet_row req pos p d])
       (set_user_tokens (insert (req_email req) (add_balance (- req_amount req) a)) d)).

(** The wager [POST /api/kalshi/bet] inserts. *)
Definition kalshi_bet_row (req : kalshi_bet_request) (pos : position) (m : kalshi_market)
    (d : DB) : kalshi_bet :=
  KalshiBet (next_id (kb_id <$> kalshi_bets d)) (kreq_email req) (kreq_marketTicker req) pos
    (kreq_amount req) (potentialPayout (kreq_amount req) (kalshi_multiplier m pos))
    (kalshi_multiplier m pos) (km_status m) B_active 0.

(** The database once the two writes of [POST /api/kalshi/bet] are committed. *)
Definition with_kalshi_bet (req : kalshi_bet_request) (pos : position) (m : kalshi_market)
    (a : account) (d : DB) : DB :=
  set_kalshi_bets (λ l, l ++ [kalshi_bet_row req pos m d])
    (set_user_tokens (insert (kreq_email req) (add_balance (- kreq_amount req) a)) d).

(** ** Conditions on a bet *)

(** The request passes validation and finds its market open and within the
    betting window: the next check is the one on the bounds. *)
Definition open_for (now : Z) (req : bet_request) (pos : position) (p : prediction)
    (d : DB) : Prop :=
  req_email req ≠ "" ∧ req_predictionId req ≠ 0
  ∧ parse_position (req_position req) = Some pos
  ∧ 1 ≤ req_amount req
  ∧ predictions d !! req_predictionId req = Some p
  ∧ status p = S_open ∧ now ≤ closes_at p.


(** The same for a bet on a Kalshi market: the venue reports the market
    open (or active), the account covers the amount, there is no earlier
    wager. *)
Definition kalshi_open_for (api : kalshi_api) (req : kalshi_bet_request) (pos : position)
    (m : kalshi_market) : Prop :=
  kreq_email req ≠ "" ∧ kreq_marketTicker req ≠ ""
  ∧ parse_position (kreq_position req) = Some pos
  ∧ api (kreq_marketTicker req) = Some m
  ∧ (km_status m = "open" ∨ km_status m = "active").


(** ** Bets in a row *)

(** A call of the bet placement protocol, on a market of the registry or on
    a Kalshi market. *)
Inductive bet_call :=
  | OnMarket (now : Z) (req : bet_request)
  | OnKalshi (api : kalshi_api) (req : kalshi_bet_request).


Definition stake (call : bet_call) : Z :=
  match call with
  | OnMarket _ req => req_amount req
  | OnKalshi _ req => kreq_amount req
  end.



(** A market open until time 1000 with bets from 10 to 500 tokens at 2.00,
    a user holding 1000 tokens, and a bet of 100 on yes. *)
Definition bob : string := "bob@example.com".
Definition spy_market : prediction :=
  Prediction "close_green" "SPY" None 2%Q 2%Q 10 500 0 1000 2000 S_open None "" None "" 0 0 0.
Definition bob_db : DB := Db {[ bob := Account 1000 1000 0 0 ]} {[ 1 := spy_market ]} [] [] [].
Definition bob_bets (amount : Z) : bet_request := BetRequest bob 1 "yes" amount.

(** A Kalshi market trading at 50 cents. *)
Definition fed_market : kalshi_market := KalshiMarket "open" "" 50 "FED" "Fed cuts rates".
Definition kalshi_open : kalshi_api :=
  λ tk, if String.eqb tk "FED-25" then Some fed_market else None.
Definition bob_bets_kalshi (amount : Z) : kalshi_bet_request :=
  KalshiBetRequest bob "FED-25" "yes" amount.


(** ** Sample runs of the settlement paths *)

Definition admin : string := "admin@example.com".

(** Bob has bet 100 tokens on yes. *)
Definition bob_in : DB := step bob_db (PlaceBet 500 (bob_bets 100), None).

(** The admin route has resolved Bob's market as yes and paid him. *)
Definition bob_paid : DB :=
  step bob_in (AdminResolve 1500 (ResolveRequest 1 "yes" admin "test"), None).

(** The sweep has closed the market; the oracle reports a green close. *)
Definition bob_closed : DB := step bob_in (Sweep 1000, None).
Definition green : oracle :=
  Oracle (λ _, Some (Quote 100%Q 101%Q)) (λ _, None).

(** The auto-resolver runs and the storage fails at its fifth statement,
    the first update inside [processBetsForPrediction]. *)
Definition bob_unpaid : DB := step bob_closed (AutoResolve 2000 green, Some 4%nat).

(** Bob and Carol have each bet 100 tokens on yes on the Kalshi market, which
    the venue then reports finalized with result yes. *)
Definition carol : string := "carol@example.com".
Definition kalshi_final : kalshi_api :=
  λ tk, if String.eqb tk "FED-25"
        then Some (KalshiMarket "finalized" "yes" 50 "FED" "Fed cuts rates")
        else None.
Definition two_on_kalshi : DB :=
  steps (Db {[ bob := Account 1000 1000 0 0; carol := Account 1000 1000 0 0 ]} ∅ [] [] [])
    [(KalshiBet_ kalshi_open (KalshiBetRequest bob "FED-25" "yes" 100), None);
     (KalshiBet_ kalshi_open (KalshiBetRequest carol "FED-25" "yes" 100), None)].

(** Bob alone on the Kalshi market. *)
Definition bob_on_kalshi : DB :=
  step bob_db (KalshiBet_ kalshi_open (bob_bets_kalshi 100), None).

(** The status and outcome of a market, the state of the wagers and the
    account columns, for display. *)
Definition market_state (id : Z) (d : DB) : option (market_status * option position) :=
  (λ p, (status p, outcome p)) <$> predictions d !! id.
Definition wager_states (d : DB) : list (string * bet_status * Z) :=
  (λ b, (user_email b, bet_state b, tokens_won b)) <$> user_bets d.
Definition kalshi_wager_states (d : DB) : list (string * bet_status * Z) :=
  (λ b, (kb_user_email b, kb_state b, kb_tokens_won b)) <$> kalshi_bets d.
Definition ledger (email : string) (d : DB) : option (Z * Z * Z) :=
  (λ a, (balance a, total_won a, total_lost a)) <$> user_tokens d !! email.

(** ** What is asked of the inputs *)

(** The funds-in events and the markets created are the only inputs whose
    values the handlers do not check. *)
Definition allowed (funds_ok : Z → Prop) (market_ok : create_body → Prop)
    (op : operation) : Prop :=
  match op with
  | FundsIn _ n => funds_ok n
  | CreateMarket b | GenerateMarket b => market_ok b
  | _ => True
  end.

(** ** Invariants *)



(** The key of the unique index of [user_bets], and of [kalshi_bets]. *)
Definition wager_key (b : bet) : string * Z := (user_email b, prediction_id b).
Definition kalshi_wager_key (b : kalshi_bet) : string * string :=
  (kb_user_email b, kalshi_ticker b).

(** At most one wager per user and market. *)
Definition unique_wagers (d : DB) : Prop :=
  NoDup (wager_key <$> user_bets d) ∧ NoDup (kalshi_wager_key <$> kalshi_bets d).



(** A history that starts with nothing: Bob opens an account, buys 1000
    tokens, the admin opens a market, Bob bets, the market is resolved against
    him, he bets on a Kalshi market and asks for a payout of what is left. *)
Definition spy_body : create_body := CreateBody
  admin "stocks" "close_green" "SPY closes green" "SPY" None 2%Q 2%Q 10 500 0 1000 2000.
Definition bob_history : list (operation * option nat) :=
  [(GetBalance bob, None); (FundsIn bob 1100, None); (CreateMarket spy_body, None);
   (PlaceBet 500 (bob_bets 100), None);
   (AdminResolve 1500 (ResolveRequest 1 "no" admin "test"), None);
   (KalshiBet_ kalshi_open (bob_bets_kalshi 1000), None);
   (RequestPayout (PayoutBody bob 1000 "zelle" "bob"), None)].

(** ** The Settlement Engine and the Kalshi synchronisation *)


(** An account after a wager is settled: a win adds [payout] to the balance
    and [counted] to [total_won], a loss adds [stake] to [total_lost]. *)
Definition credited (won : bool) (payout stake counted : Z) (a : account) : account :=
  if won then add_total_won counted (add_balance payout a) else add_total_lost stake a.





(** * Further definitions *)

(** ** Settlement accounting *)

(** The tokens paid to [email] for its wagers among [bets] when the outcome
    is [o], the profit counted for it, and the stakes it lost. *)
Definition paid_to (o : position) (email : string) (bets : list bet) : Z :=
  foldr Z.add 0
    (potential_payout <$> filter (λ b, user_email b = email ∧ bet_position b = o) bets).
Definition profit_of (o : position) (email : string) (bets : list bet) : Z :=
  foldr Z.add 0
    ((λ b, potential_payout b - tokens_wagered b)
       <$> filter (λ b, user_email b = email ∧ bet_position b = o) bets).
Definition lost_by (o : position) (email : string) (bets : list bet) : Z :=
  foldr Z.add 0
    (tokens_wagered <$> filter (λ b, user_email b = email ∧ bet_position b ≠ o) bets).

(** The account of [email] once the wagers [bets] are settled with outcome
    [o]. *)
Definition settled_account (o : position) (email : string) (bets : list bet)
    (a : account) : account :=
  Account (balance a + paid_to o email bets) (total_purchased a)
          (total_won a + profit_of o email bets) (total_lost a + lost_by o email bets).

(** What the two statements of [settle_bet] do to the accounts, a missing
    account being left missing. *)
Definition settle_account (o : position) (b : bet) (a : account) : account :=
  credited (position_eqb (bet_position b) o) (potential_payout b) (tokens_wagered b)
    (potential_payout b - tokens_wagered b) a.
Definition accounts_after (o : position) (bets : list bet) (m : gmap string account)
    : gmap string account :=
  foldl (λ m b, alter (settle_account o b) (user_email b) m) m bets.

(** ** The status sweep *)

(** The order of the states of a market. *)
Definition status_rank (s : market_status) : nat :=
  match s with
  | S_upcoming => 0
  | S_open => 1
  | S_closed => 2
  | S_resolved => 3
  end.

(** What the first and the second statement of [updatePredictionStatuses]
    do to one market. *)
Definition opened (now : Z) (p : prediction) : prediction :=
  if market_status_eqb (status p) S_upcoming && (opens_at p <=? now) && (now <? closes_at p)
  then set_status S_open p else p.
Definition closed (now : Z) (p : prediction) : prediction :=
  if market_status_eqb (status p) S_open && (closes_at p <=? now)
  then set_status S_closed p else p.

(** A market the sweep may turn [p] into at time [now]. *)
Definition sweep_step (now : Z) (p p' : prediction) : Prop :=
  p' = p
  ∨ (status p = S_upcoming ∧ opens_at p ≤ now < closes_at p ∧ p' = set_status S_open p)
  ∨ (status p = S_open ∧ closes_at p ≤ now ∧ p' = set_status S_closed p).

(** ** The auto-resolver *)

(** The branch [resolveReadyPredictions] takes for a market: the outcome
    and its source, or nothing when the subcategory is unknown or the oracle
    has no answer. *)
Definition resolution_of (o : oracle) (p : prediction) : option (position * string) :=
  if String.eqb (subcategory p) "close_green" then resolveDailyCloseGreen o p
  else if String.eqb (subcategory p) "range" then resolveWeeklyRange o p
  else None.

(** The markets [resolveReadyPredictions] selects. *)
Definition ready (now : Z) (p : prediction) : Prop :=
  status p = S_closed ∧ outcome p = None ∧ resolves_at p ≤ now.

(** The subcategories the auto-resolver knows how to resolve. *)
Definition auto_resolved (p : prediction) : bool :=
  String.eqb (subcategory p) "close_green" || String.eqb (subcategory p) "range".

(** ** Properties of the table of markets *)

(** A property of the table of markets, as a property of the database. *)
Definition on_markets (P : gmap Z prediction → Prop) (d : DB) : Prop :=
  P (predictions d).

(** The terms of a market: what it is about, its odds, its bounds and its
    betting window. *)
Definition same_terms (p p' : prediction) : Prop :=
  subcategory p' = subcategory p ∧ ticker p' = ticker p ∧ range_pct p' = range_pct p
  ∧ yes_payout_multiplier p' = yes_payout_multiplier p
  ∧ no_payout_multiplier p' = no_payout_multiplier p
  ∧ min_bet p' = min_bet p ∧ max_bet p' = max_bet p
  ∧ opens_at p' = opens_at p ∧ closes_at p' = closes_at p
  ∧ resolves_at p' = resolves_at p.

(** [p'] is a later state of the market [p]. *)
Definition later (p p' : prediction) : Prop :=
  same_terms p p'
  ∧ (status_rank (status p) ≤ status_rank (status p'))%nat
  ∧ total_yes_tokens p ≤ total_yes_tokens p'
  ∧ total_no_tokens p ≤ total_no_tokens p'
  ∧ total_bettors p ≤ total_bettors p'
  ∧ (is_Some (outcome p) → is_Some (outcome p')).

(** Bob has bet 100 tokens on yes and Carol 50 on no, on the same market. *)
Definition two_in : DB :=
  steps (Db {[ bob := Account 1000 1000 0 0; carol := Account 1000 1000 0 0 ]}
           {[ 1 := spy_market ]} [] [] [])
    [(PlaceBet 500 (bob_bets 100), None);
     (PlaceBet 500 (BetRequest carol 1 "no" 50), None)].

(** ** Bets *)



(** ** Volume counters *)

(** The tokens staked on side [pos] of market [id], and the number of
    wagers on the market, whatever the state of the wagers. *)
Definition staked (pos : position) (id : Z) (bets : list bet) : Z :=
  foldr Z.add 0
    (tokens_wagered <$> filter (λ b, prediction_id b = id ∧ bet_position b = pos) bets).
Definition wagers_on (id : Z) (bets : list bet) : Z :=
  Z.of_nat (length (filter (λ b, prediction_id b = id) bets)).

(** Every wager is on a market of the registry, and the counters of every
    market are the sums over its wagers. *)
Definition counters_exact (d : DB) : Prop :=
  (∀ b, b ∈ user_bets d → is_Some (predictions d !! prediction_id b))
  ∧ ∀ id p, predictions d !! id = Some p →
            total_yes_tokens p = staked Yes id (user_bets d)
            ∧ total_no_tokens p = staked No id (user_bets d)
            ∧ total_bettors p = wagers_on id (user_bets d).

(** ** The trading calendar ([scripts/generate-predictions.js]) *)

(** A [Date] is its time value, the milliseconds since 1970-01-01 UTC.
    [getDay], [setDate] and [setHours] work in the local time of the
    process, taken to be at a constant offset [tz] (in milliseconds, east
    positive) from UTC, as UTC itself is; [toISOString] works in UTC. *)
Definition ms_per_day : Z := 86400000.

(** The number of the day, from 1970-01-01, of a date of the calendar. *)
Definition days_from_civil (y m d : Z) : Z :=
  let y' := if m <=? 2 then y - 1 else y in
  let era := y' / 400 in
  let yoe := y' - era * 400 in
  let doy := (153 * (if 2 <? m then m - 3 else m + 9) + 2) / 5 + d - 1 in
  let doe := yoe * 365 + yoe / 4 - yoe / 100 + doy in
  era * 146097 + doe - 719468.

(** [MARKET_HOLIDAYS_2025], each ['YYYY-MM-DD'] as the number of its day. *)
Definition MARKET_HOLIDAYS_2025 : list Z :=
  [days_from_civil 2025 1 1; days_from_civil 2025 1 20; days_from_civil 2025 2 17;
   days_from_civil 2025 4 18; days_from_civil 2025 5 26; days_from_civil 2025 6 19;
   days_from_civil 2025 7 4; days_from_civil 2025 9 1; days_from_civil 2025 11 27;
   days_from_civil 2025 12 25].

(** [date.getDay()]: 0 is Sunday; 1970-01-01 was a Thursday. *)
Definition getDay (tz : Z) (date : Z) : Z := ((date + tz) / ms_per_day + 4) mod 7.

(** [date.setDate(date.getDate() + n)] *)
Definition addDays (n : Z) (date : Z) : Z := date + n * ms_per_day.

(** [date.setHours(h, m, 0, 0)] *)
Definition setHours (tz : Z) (h m : Z) (date : Z) : Z :=
  (date + tz) / ms_per_day * ms_per_day + h * 3600000 + m * 60000 - tz.

(** [isWeekend(date)] *)
Definition isWeekend (tz : Z) (date : Z) : bool :=
  let day := getDay tz date in
  (day =? 0) || (day =? 6).

(** [isHoliday(date)]: [date.toISOString().split('T')[0]] is the UTC day. *)
Definition isHoliday (date : Z) : bool :=
  bool_decide (date / ms_per_day ∈ MARKET_HOLIDAYS_2025).

(** [isTradingDay(date)] *)
Definition isTradingDay (tz : Z) (date : Z) : bool :=
  negb (isWeekend tz date) && negb (isHoliday date).

(** The [while] loop of [getNextTradingDay], run for at most [fuel] turns. *)
Fixpoint next_trading (fuel : nat) (tz : Z) (next : Z) : option Z :=
  match fuel with
  | O => None
  | S fuel =>
      if isTradingDay tz next then Some next
      else next_trading fuel tz (addDays 1 next)
  end.

(** [getNextTradingDay(fromDate)] *)
Definition getNextTradingDay (fuel : nat) (tz : Z) (fromDate : Z) : option Z :=
  next_trading fuel tz (addDays 1 fromDate).

(** [getFridayOfWeek(date)] *)
Definition getFridayOfWeek (tz : Z) (date : Z) : Z :=
  let day := getDay tz date in
  let diff := 5 - day in
  addDays diff date.

(** [{ opensAt, closesAt, resolvesAt }] *)
Record times := Times {
  t_opensAt : Z;
  t_closesAt : Z;
  t_resolvesAt : Z
}.

(** [createDailyTimes(tradingDate)] *)
Definition createDailyTimes (tz : Z) (tradingDate : Z) : times :=
  Times (setHours tz 20 0 (addDays (-1) tradingDate))
        (setHours tz 9 30 tradingDate)
        (setHours tz 16 30 tradingDate).

(** [createWeeklyTimes(mondayDate)] *)
Definition createWeeklyTimes (tz : Z) (mondayDate : Z) : times :=
  Times (setHours tz 20 0 (addDays (-1) mondayDate))
        (setHours tz 9 30 mondayDate)
        (setHours tz 16 30 (getFridayOfWeek tz mondayDate)).

(** [getNextFriday()], [now] being [new Date()]. *)
Definition getNextFriday (tz : Z) (now : Z) : Z :=
  let r := (5 - getDay tz now + 7) mod 7 in
  let daysUntilFriday := if r =? 0 then 7 else r in
  setHours tz 16 0 (addDays daysUntilFriday now).

(** The test of [isTradingDay] on the local day [L] and the UTC day [U]. *)
Definition trading_at (L U : Z) : bool :=
  negb (((L + 4) mod 7 =? 0) || ((L + 4) mod 7 =? 6))
  && negb (bool_decide (U ∈ MARKET_HOLIDAYS_2025)).

(** A trading day among the [n] days from local day [L], UTC day [U]. *)
Definition trading_within (n : Z) (L U : Z) : bool :=
  existsb (λ j, trading_at (L + j) (U + j)) (seqZ 0 n).

(** * Proofs *)

(** ** Rules for weakest preconditions *)

Section wp_rules.
Context {A : Type}.
Implicit Types (Q : A → conn → Prop) (E : error → conn → Prop) (c : conn).

Lemma wp_ret (a : A) Q E c : Q a c → wp (ret a) Q E c.
Proof. done. Qed.

Lemma wp_throw e Q E c : E e c → wp (throw e) Q E c.
Proof. done. Qed.

Lemma wp_bind {B} (m : M B) (f : B → M A) Q E c :
  wp m (λ b c', wp (f b) Q E c') E c → wp (bind m f) Q E c.
Proof. unfold wp, bind. by destruct (m c) as [[b|e] c']. Qed.

Lemma wp_try_catch (body : M A) h Q E c :
  wp body Q (λ e c', wp (h e) Q E c') c → wp (try_catch body h) Q E c.
Proof. unfold wp, try_catch. by destruct (body c) as [[a|e] c']. Qed.

Lemma wp_mono (m : M A) Q Q' E E' c :
  wp m Q E c → (∀ a c', Q a c' → Q' a c') → (∀ e c', E e c' → E' e c') →
  wp m Q' E' c.
Proof. unfold wp. destruct (m c) as [[a|e] c']; auto. Qed.

Lemma wp_first_row (rows : option A) e Q E c :
  (rows = None → E e c) → (∀ r, rows = Some r → Q r c) →
  wp (first_row rows e) Q E c.
Proof. destruct rows; unfold wp; cbn; auto. Qed.

Lemma wp_query (g : DB → A) Q E c :
  (fault c = Some (issued c) → E QueryFailed (sent c)) →
  (fault c ≠ Some (issued c) → Q (g (db c)) (sent c)) →
  wp (query g) Q E c.
Proof.
  intros Hfail Hok. unfold wp, query, bind, tick.
  case_bool_decide; cbn; auto.
Qed.

Lemma wp_exec_returning (g : DB → completion (A * DB)) Q E c :
  (fault c = Some (issued c) → E QueryFailed (sent c)) →
  (fault c ≠ Some (issued c) →
   match g (db c) with
   | Return (a, d) => Q a (Conn d (tx c) (fault c) (S (issued c)))
   | Throw e => E e (sent c)
   end) →
  wp (exec_returning g) Q E c.
Proof.
  intros Hfail Hok. unfold wp, exec_returning, bind, tick.
  case_bool_decide; cbn; auto.
  specialize (Hok ltac:(done)). by destruct (g (db c)) as [[a d]|e].
Qed.
End wp_rules.

Section wp_unit_rules.
Implicit Types (Q : unit → conn → Prop) (E : error → conn → Prop) (c : conn).

Lemma wp_throw_if (b : bool) e Q E c :
  (b = true → E e c) → (b = false → Q tt c) → wp (throw_if b e) Q E c.
Proof. destruct b; unfold wp; cbn; auto. Qed.

Lemma wp_tick Q E c :
  (fault c = Some (issued c) → E QueryFailed (sent c)) →
  (fault c ≠ Some (issued c) → Q tt (sent c)) →
  wp tick Q E c.
Proof. intros. unfold wp, tick. case_bool_decide; auto. Qed.

Lemma wp_exec (g : DB → completion DB) Q E c :
  (fault c = Some (issued c) → E QueryFailed (sent c)) →
  (fault c ≠ Some (issued c) →
   match g (db c) with
   | Return d => Q tt (Conn d (tx c) (fault c) (S (issued c)))
   | Throw e => E e (sent c)
   end) →
  wp (exec g) Q E c.
Proof.
  intros Hfail Hok. unfold wp, exec, bind, tick.
  case_bool_decide; cbn; auto.
  specialize (Hok ltac:(done)). by destruct (g (db c)).
Qed.

Lemma wp_BEGIN Q E c :
  (fault c = Some (issued c) → E QueryFailed (sent c)) →
  (fault c ≠ Some (issued c) →
   Q tt (Conn (db c) (Some (db c)) (fault c) (S (issued c)))) →
  wp BEGIN Q E c.
Proof. intros. unfold wp, BEGIN, bind, tick. case_bool_decide; cbn; auto. Qed.

Lemma wp_COMMIT Q E c :
  (fault c = Some (issued c) → E QueryFailed (sent c)) →
  (fault c ≠ Some (issued c) → Q tt (Conn (db c) None (fault c) (S (issued c)))) →
  wp COMMIT Q E c.
Proof. intros. unfold wp, COMMIT, bind, tick. case_bool_decide; cbn; auto. Qed.

Lemma wp_ROLLBACK Q E c :
  Q tt (Conn (committed c) None (fault c) (issued c)) → wp ROLLBACK Q E c.
Proof.
  unfold wp, ROLLBACK, committed. destruct c as [d [s|] f n]; cbn; auto.
Qed.

Lemma wp_for_each {B} (I : conn → Prop) (rows : list B) (body : B → M unit) Q E c :
  I c →
  (∀ x c', x ∈ rows → I c' → wp (body x) (λ _, I) E c') →
  (∀ c', I c' → Q tt c') →
  wp (for_each rows body) Q E c.
Proof.
  intros Hc Hbody HQ. revert c Hc.
  induction rows as [|x rows IH]; intros c Hc; cbn.
  - by apply HQ.
  - apply wp_bind. eapply wp_mono; [apply Hbody; [left|done]| |done].
    cbn. intros _ c' Hc'. apply IH; [|done].
    intros y c'' Hy. apply Hbody. by right.
Qed.
End wp_unit_rules.

Lemma wp_run {A} (P : completion A → DB → Prop) (m : M A) f d :
  wp m (λ a c, P (Return a) (committed c)) (λ e c, P (Throw e) (committed c))
     (Conn d None f 0) →
  ∀ r d', run m f d = (r, d') → P r d'.
Proof.
  unfold wp, run. destruct (m _) as [[a|e] c']; intros H r d' [= <- <-]; done.
Qed.

Ltac wp_simpl := cbn [sent db tx fault issued committed] in *.

Ltac wp_step :=
  lazymatch goal with
  | |- wp (bind _ _) _ _ _ => apply wp_bind
  | |- wp (ret _) _ _ _ => apply wp_ret
  | |- wp (throw _) _ _ _ => apply wp_throw
  | |- wp (try_catch _ _) _ _ _ => apply wp_try_catch
  | |- wp (query _) _ _ _ => apply wp_query; intros ?
  | |- wp (exec _) _ _ _ => apply wp_exec; intros ?
  | |- wp (exec_returning _) _ _ _ => apply wp_exec_returning; intros ?
  | |- wp BEGIN _ _ _ => apply wp_BEGIN; intros ?
  | |- wp COMMIT _ _ _ => apply wp_COMMIT; intros ?
  | |- wp ROLLBACK _ _ _ => apply wp_ROLLBACK
  | |- wp tick _ _ _ => apply wp_tick; intros ?
  | |- wp (throw_if _ _) _ _ _ => apply wp_throw_if; intros ?
  | |- wp (first_row _ _) _ _ _ => apply wp_first_row; [intros ?|intros ? ?]
  | |- wp (if ?b then _ else _) _ _ _ => destruct b eqn:?
  | |- wp (match ?o with _ => _ end) _ _ _ => destruct o eqn:?
  | |- match ?o with _ => _ end => destruct o eqn:?
  end; wp_simpl.

Ltac wp_steps := repeat wp_step.

(** Stepping through a handler when what each statement returns is known
    from the context. *)
Ltac use_known :=
  match goal with
  | H : ?t = _, H' : ?t = _ |- _ => rewrite H in H'
  end.

Ltac wp_known := repeat (wp_step; repeat use_known; simplify_eq; try done; try lia).

(** ** Statements *)


Lemma add_columns_Return sets a a' :
  add_columns sets a = Return a' →
  a' = foldl (λ acc cn, add_column cn.1 cn.2 acc) a sets.
Proof.
  revert a. induction sets as [|[c n] sets IH]; intros a; cbn.
  - by intros [= <-].
  - destruct (int4 n && int4 (get_column c a + n)); [apply IH|done].
Qed.

Lemma add_columns_one c n a :
  add_columns [(c, n)] a =
  if int4 n && int4 (get_column c a + n) then Return (add_column c n a)
  else Throw IntegerOutOfRange.
Proof. done. Qed.

Lemma UPDATE_user_tokens_inv sets email d d' :
  UPDATE_user_tokens sets email d = Return d' →
  match user_tokens d !! email with
  | None => d' = d
  | Some a =>
      ∃ a', add_columns sets a = Return a'
            ∧ d' = set_user_tokens (insert email a') d
  end.
Proof.
  unfold UPDATE_user_tokens. destruct (user_tokens d !! email) as [a|].
  - destruct (add_columns sets a) as [a'|] eqn:Ha; [|done].
    intros [= <-]. eauto.
  - by intros [= <-].
Qed.

(** An [UPDATE] of [user_tokens] keeps the set of accounts. *)
Lemma UPDATE_user_tokens_is_Some sets email d d' e :
  UPDATE_user_tokens sets email d = Return d' →
  is_Some (user_tokens d' !! e) ↔ is_Some (user_tokens d !! e).
Proof.
  intros H. apply UPDATE_user_tokens_inv in H.
  destruct (user_tokens d !! email) as [a|] eqn:Ha.
  - destruct H as (a' & _ & ->). cbn.
    destruct (decide (email = e)) as [<-|Hne].
    + rewrite lookup_insert_eq, Ha. split; eauto.
    + by rewrite lookup_insert_ne.
  - by subst.
Qed.

Lemma UPDATE_user_tokens_frame sets email d d' :
  UPDATE_user_tokens sets email d = Return d' →
  predictions d' = predictions d ∧ user_bets d' = user_bets d
  ∧ kalshi_bets d' = kalshi_bets d ∧ payout_requests d' = payout_requests d.
Proof.
  intros H. apply UPDATE_user_tokens_inv in H.
  destruct (user_tokens d !! email); [destruct H as (a' & _ & ->)|subst]; done.
Qed.

Lemma INSERT_user_bets_inv email pid pos w payout mult d b d' :
  INSERT_user_bets email pid pos w payout mult d = Return (b, d') →
  b = Bet (next_id (bet_id <$> user_bets d)) email pid pos w payout mult B_active 0 false
  ∧ d' = set_user_bets (λ l, l ++ [b]) d
  ∧ SELECT_user_bet pid email d = []
  ∧ is_Some (user_tokens d !! email).
Proof.
  unfold INSERT_user_bets. repeat case_match; try done.
  intros [= <- <-]. split_and!; try done.
  - destruct (SELECT_user_bet pid email d); [done|]. cbn in *. done.
  - match goal with H : negb (bool_decide (is_Some (user_tokens _ !! _))) = false |- _ =>
      apply negb_false_iff, bool_decide_eq_true in H; exact H end.
Qed.

Lemma UPDATE_predictions_volume_inv pos n id d d' :
  UPDATE_predictions_volume pos n id d = Return d' →
  user_tokens d' = user_tokens d ∧ user_bets d' = user_bets d
  ∧ kalshi_bets d' = kalshi_bets d ∧ payout_requests d' = payout_requests d
  ∧ match predictions d !! id with
    | None => d' = d
    | Some p => d' = set_predictions (insert id (add_volume pos n p)) d
    end.
Proof.
  unfold UPDATE_predictions_volume. destruct (predictions d !! id) as [p|].
  - case_match; [|done]. by intros [= <-].
  - by intros [= <-].
Qed.

Lemma INSERT_payout_requests_inv email tokens usd method dest d row d' :
  INSERT_payout_requests email tokens usd method dest d = Return (row, d') →
  row = PayoutRequest (next_id (pr_id <$> payout_requests d)) email tokens usd
          method dest P_pending "" "" ""
  ∧ d' = set_payout_requests (λ l, l ++ [row]) d
  ∧ int4 tokens = true.
Proof.
  unfold INSERT_payout_requests. destruct (int4 tokens); [|done].
  repeat case_match; try done. by intros [= <- <-].
Qed.

Lemma INSERT_kalshi_bets_inv email tk pos w payout mult ks d b d' :
  INSERT_kalshi_bets email tk pos w payout mult ks d = Return (b, d') →
  b = KalshiBet (next_id (kb_id <$> kalshi_bets d)) email tk pos w payout mult ks B_active 0
  ∧ d' = set_kalshi_bets (λ l, l ++ [b]) d
  ∧ SELECT_kalshi_bet tk email d = [].
Proof.
  unfold INSERT_kalshi_bets. repeat case_match; try done.
  intros [= <- <-]. split_and!; try done.
  destruct (SELECT_kalshi_bet tk email d); [done|]. cbn in *. done.
Qed.

Lemma filter_none {A} (P : A → Prop) `{∀ x, Decision (P x)} (l : list A) :
  (∀ x, x ∈ l → ¬ P x) → filter P l = [].
Proof.
  induction l as [|x l IH]; [done|]. intros Hl.
  rewrite filter_cons_False; [|apply Hl; left].
  apply IH. intros y Hy. apply Hl. by right.
Qed.

(** The next id is above every id in use. *)
Lemma next_id_above ids i : i ∈ ids → i < next_id ids.
Proof.
  unfold next_id. induction ids as [|j ids IH]; [by intros ?%elem_of_nil|].
  intros [->|Hin]%elem_of_cons; cbn; [lia|]. specialize (IH Hin). lia.
Qed.

Lemma wp_run_eq {A} (m : M A) f d (a0 : A) d0 :
  wp m (λ a c, a = a0 ∧ committed c = d0) (λ _ _, False) (Conn d None f 0) →
  run m f d = (Return a0, d0).
Proof.
  intros H. destruct (run m f d) as [r d'] eqn:Hrun.
  eapply (wp_run (λ r d', (r, d') = (Return a0, d0))) in Hrun; [done|].
  eapply wp_mono; [exact H| |done]. by intros a c [-> ->].
Qed.

(** ** Payout requests *)

(** [POST /payout/request] either debits the account and inserts the request,
    or changes nothing; it never throws. *)
Lemma post_payout_request_spec req f d r d' :
  run (post_payout_request req) f d = (r, d') →
  match r with
  | Return (Json row) =>
      ∃ a, user_tokens d !! pay_email req = Some a
           ∧ MIN_PAYOUT_TOKENS ≤ pay_tokensAmount req ≤ balance a
           ∧ int4 (pay_tokensAmount req) = true
           ∧ row = PayoutRequest (next_id (pr_id <$> payout_requests d)) (pay_email req)
                     (pay_tokensAmount req)
                     (inject_Z (pay_tokensAmount req) * TOKENS_TO_USD_RATE)%Q
                     (pay_method req) (pay_destination req) P_pending "" "" ""
           ∧ d' = set_payout_requests (λ l, l ++ [row])
                    (set_user_tokens
                       (insert (pay_email req) (add_balance (- pay_tokensAmount req) a)) d)
  | Return (Status _ _) => d' = d
  | Throw _ => False
  end.
Proof.
  revert r d'.
  apply (wp_run (λ r d', match r with
                         | Return (Json row) => _
                         | Return (Status _ _) => d' = d
                         | Throw _ => False
                         end)).
  unfold post_payout_request. cbv zeta. wp_steps; try done.
  match goal with H : UPDATE_user_tokens _ _ _ = Return _ |- _ =>
    apply UPDATE_user_tokens_inv in H end.
  match goal with H : user_tokens d !! _ = Some ?a |- _ =>
    rewrite H in *; exists a end.
  match goal with H : ∃ _, _ |- _ => destruct H as (a' & Ha' & ->) end.
  rewrite add_columns_one in Ha'. case_match; [|done]. injection Ha' as <-.
  match goal with H : INSERT_payout_requests _ _ _ _ _ _ = Return _ |- _ =>
    apply INSERT_payout_requests_inv in H; destruct H as (-> & -> & ?) end.
  split_and!; try done; lia.
Qed.

Lemma parse_payout_status_rejected s :
  s = "rejected" → parse_payout_status s = Some P_rejected.
Proof. by intros ->. Qed.

(** [POST /admin/process-payout] with status ['rejected'] and no failure. *)
Lemma post_admin_process_payout_rejected b d payout a :
  proc_status b = "rejected" →
  SELECT_payout_request (proc_payoutId b) d = Some payout →
  user_tokens d !! pr_user_email payout = Some a →
  int4 (tokens_amount payout) = true →
  int4 (balance a + tokens_amount payout) = true →
  run (post_admin_process_payout b) None d =
    (Return (Json tt),
     set_payout_requests
       (map (λ r, if bool_decide (pr_id r = proc_payoutId b)
                  then reviewed P_rejected b r else r))
       (set_user_tokens
          (insert (pr_user_email payout) (add_balance (tokens_amount payout) a)) d)).
Proof.
  intros Hst Hsel Ha Ht Hb. apply wp_run_eq.
  unfold post_admin_process_payout.
  rewrite (parse_payout_status_rejected _ Hst).
  wp_steps; simplify_eq; try done.
  all: unfold UPDATE_user_tokens, UPDATE_payout_requests in *.
  all: rewrite Ha, add_columns_one in *; cbn in *.
  all: rewrite Ht, Hb in *; cbn in *; simplify_eq. done.
Qed.

(** A failure at the third statement (the update of the request) comes
    after the credit was committed on its own. *)
Lemma post_admin_process_payout_rejected_fault b d payout a :
  proc_status b = "rejected" →
  SELECT_payout_request (proc_payoutId b) d = Some payout →
  user_tokens d !! pr_user_email payout = Some a →
  int4 (tokens_amount payout) = true →
  int4 (balance a + tokens_amount payout) = true →
  run (post_admin_process_payout b) (Some 2%nat) d =
    (Return (Status 500 FailedToProcessPayout),
     set_user_tokens
       (insert (pr_user_email payout) (add_balance (tokens_amount payout) a)) d).
Proof.
  intros Hst Hsel Ha Ht Hb. apply wp_run_eq.
  unfold post_admin_process_payout.
  rewrite (parse_payout_status_rejected _ Hst).
  wp_steps; simplify_eq; try done.
  all: unfold UPDATE_user_tokens, UPDATE_payout_requests in *.
  all: rewrite Ha, add_columns_one in *; cbn in *.
  all: rewrite Ht, Hb in *; cbn in *; simplify_eq. done.
Qed.

Lemma SELECT_payout_request_reviewed st b d id :
  SELECT_payout_request id
    (set_payout_requests
       (map (λ r, if bool_decide (pr_id r = proc_payoutId b) then reviewed st b r else r)) d) =
  (λ r, if bool_decide (pr_id r = proc_payoutId b) then reviewed st b r else r)
    <$> SELECT_payout_request id d.
Proof.
  unfold SELECT_payout_request. cbn [payout_requests set_payout_requests].
  induction (payout_requests d) as [|r l IH]; [done|]. cbn [map].
  rewrite !filter_cons.
  assert (pr_id (if bool_decide (pr_id r = proc_payoutId b) then reviewed st b r else r)
          = pr_id r) as -> by (by case_bool_decide).
  case_decide; [done|apply IH].
Qed.

Lemma SELECT_payout_request_pr_id id d r :
  SELECT_payout_request id d = Some r → pr_id r = id.
Proof.
  unfold SELECT_payout_request. intros H%head_Some_elem_of.
  by apply list_elem_of_filter in H as [? _].
Qed.

Lemma SELECT_payout_request_frame id g d :
  SELECT_payout_request id (set_user_tokens g d) = SELECT_payout_request id d.
Proof. done. Qed.




(** C9.  Reviewing a payout request as rejected is not idempotent: each call
    credits [tokens_amount], whatever the status of the request, so two
    calls credit it twice.  The credit and the update of the request are two
    statements of their own: when the second one fails the credit stays. *)
Theorem reject_twice_credits_twice b d payout a :
  proc_status b = "rejected" →
  SELECT_payout_request (proc_payoutId b) d = Some payout →
  user_tokens d !! pr_user_email payout = Some a →
  int4 (tokens_amount payout) = true →
  int4 (balance a + tokens_amount payout) = true →
  int4 (balance a + 2 * tokens_amount payout) = true →
  balance <$> user_tokens (steps d [(ReviewPayout b, None); (ReviewPayout b, None)])
                !! pr_user_email payout
  = Some (balance a + 2 * tokens_amount payout)
  ∧ user_tokens (step d (ReviewPayout b, Some 2%nat)) !! pr_user_email payout
    = Some (add_balance (tokens_amount payout) a)
  ∧ payout_requests (step d (ReviewPayout b, Some 2%nat)) = payout_requests d.
Proof.
  intros Hst Hsel Ha Ht Hb Hb2.
  assert (∀ f d0, step d0 (ReviewPayout b, f) = (run (post_admin_process_payout b) f d0).2)
    as Hstep.
  { intros f d0. unfold step, run, handler, bind, ret. cbn.
    by destruct (post_admin_process_payout b _) as [[?|?] ?]. }
  split; [|split].
  - unfold steps. cbn [foldl]. rewrite !Hstep.
    rewrite (post_admin_process_payout_rejected b d payout a) by done. cbn [snd].
    erewrite (post_admin_process_payout_rejected b _ (reviewed P_rejected b payout)
                (add_balance (tokens_amount payout) a)); cbn; try done.
    + rewrite lookup_insert_eq. cbn. f_equal. lia.
    + change (SELECT_payout_request (proc_payoutId b)
                (set_payout_requests
                   (map (λ r, if bool_decide (pr_id r = proc_payoutId b)
                              then reviewed P_rejected b r else r))
                   (set_user_tokens
                      (insert (pr_user_email payout)
                         (add_balance (tokens_amount payout) a)) d))
              = Some (reviewed P_rejected b payout)).
      rewrite SELECT_payout_request_reviewed, SELECT_payout_request_frame, Hsel. cbn.
      rewrite bool_decide_eq_true_2; [done|].
      by apply SELECT_payout_request_pr_id in Hsel.
    + by rewrite lookup_insert_eq.
    + replace (balance a + tokens_amount payout + tokens_amount payout)
        with (balance a + 2 * tokens_amount payout) by lia. done.
  - rewrite Hstep, (post_admin_process_payout_rejected_fault b d payout a) by done.
    cbn. by rewrite lookup_insert_eq.
  - by rewrite Hstep, (post_admin_process_payout_rejected_fault b d payout a).
Qed.

Lemma reject_twice_credits_twice_witness :
  balance <$> user_tokens
                (steps ann_after_request
                   [(ReviewPayout reject_first, None); (ReviewPayout reject_first, None)])
                !! ann
  = Some 7000.
Proof.
  apply (reject_twice_credits_twice reject_first ann_after_request ann_request
           (Account 3000 5000 0 0)); reflexivity.
Defined.

(** ** Placing bets *)

(** The three writes of [POST /bet], one after the other. *)
Lemma bet_writes req pos p a d d1 b d2 d3 :
  predictions d !! req_predictionId req = Some p →
  user_tokens d !! req_email req = Some a →
  UPDATE_user_tokens [(col_balance, - req_amount req)] (req_email req) d = Return d1 →
  INSERT_user_bets (req_email req) (req_predictionId req) pos (req_amount req)
    (potentialPayout (req_amount req) (multiplier_for pos p)) (multiplier_for pos p) d1
  = Return (b, d2) →
  UPDATE_predictions_volume pos (req_amount req) (req_predictionId req) d2 = Return d3 →
  b = bet_row req pos p d ∧ d3 = with_bet req pos p a d
  ∧ SELECT_user_bet (req_predictionId req) (req_email req) d = [].
Proof.
  intros Hp Ha H1 H2 H3.
  apply UPDATE_user_tokens_inv in H1. rewrite Ha in H1.
  destruct H1 as (a' & Ha' & ->).
  rewrite add_columns_one in Ha'. case_match; [|done]. injection Ha' as <-.
  apply INSERT_user_bets_inv in H2 as (-> & -> & Hsel & _).
  apply UPDATE_predictions_volume_inv in H3 as (_ & _ & _ & _ & H3).
  cbn in H3. rewrite Hp in H3. by subst.
Qed.

(** What [POST /bet] does, for every statement the storage may fail at. *)
Lemma post_bet_spec now req f d r d' :
  run (post_bet now req) f d = (r, d') →
  match r with
  | Return (Json reply) =>
      ∃ pos p a,
        parse_position (req_position req) = Some pos
        ∧ predictions d !! req_predictionId req = Some p
        ∧ user_tokens d !! req_email req = Some a
        ∧ status p = S_open ∧ now ≤ closes_at p
        ∧ min_bet p ≤ req_amount req ≤ max_bet p
        ∧ 1 ≤ req_amount req ≤ balance a
        ∧ SELECT_user_bet (req_predictionId req) (req_email req) d = []
        ∧ reply = BetReply (bet_row req pos p d) (balance a - req_amount req)
        ∧ d' = with_bet req pos p a d
  | Return (Status _ e) =>
      d' = d
      ∨ (f = Some 8%nat ∧ e = QueryFailed
         ∧ ∃ pos p a,
             parse_position (req_position req) = Some pos
             ∧ predictions d !! req_predictionId req = Some p
             ∧ user_tokens d !! req_email req = Some a
             ∧ 1 ≤ req_amount req ≤ balance a
             ∧ SELECT_user_bet (req_predictionId req) (req_email req) d = []
             ∧ d' = with_bet req pos p a d)
  | Throw _ => False
  end.
Proof.
  revert r d'.
  apply (wp_run (λ r d', match r with
                         | Return (Json reply) => _
                         | Return (Status _ e) => d' = d ∨ _
                         | Throw _ => False
                         end)).
  unfold post_bet. cbv zeta. wp_steps; try by left.
  all: match goal with
       | Hp : predictions ?d0 !! _ = Some ?p, Ha : user_tokens ?d0 !! _ = Some ?a,
         H1 : UPDATE_user_tokens _ _ ?d0 = Return _,
         H2 : INSERT_user_bets _ _ _ _ _ _ _ = Return _,
         H3 : UPDATE_predictions_volume _ _ _ _ = Return _ |- _ =>
           destruct (bet_writes _ _ _ _ _ _ _ _ _ Hp Ha H1 H2 H3) as (-> & -> & Hsel)
       end.
  - right. split_and!; try done. do 3 eexists. split_and!; try done; lia.
  - exfalso.
    match goal with H : user_tokens (with_bet _ _ _ _ _) !! _ = None |- _ =>
      cbn in H; by rewrite lookup_insert_eq in H end.
  - match goal with H : user_tokens (with_bet _ _ _ _ _) !! _ = Some _ |- _ =>
      cbn in H; rewrite lookup_insert_eq in H; injection H as <- end.
    do 3 eexists. split_and!; try done; try lia.
    all: try (cbn; do 2 f_equal; lia).
    match goal with H : negb (market_status_eqb (status ?p) S_open) = false |- _ =>
      apply negb_false_iff in H; by destruct (status p) end.
Qed.

Lemma missing_str_false s : s ≠ "" → missing_str s = false.
Proof. intros H. unfold missing_str. by apply String.eqb_neq. Qed.

Lemma missing_num_false z : z ≠ 0 → missing_num z = false.
Proof. intros H. unfold missing_num. by apply Z.eqb_neq. Qed.

Lemma parse_position_Some s pos : parse_position s = Some pos → s ≠ "".
Proof. by intros H ->. Qed.

(** The validation of [POST /bet] lets an [open_for] request through. *)
Lemma open_for_fields now req pos p d :
  open_for now req pos p d →
  missing_str (req_email req) || missing_num (req_predictionId req)
  || missing_str (req_position req) || missing_num (req_amount req) = false.
Proof.
  intros (? & ? & Hpos%parse_position_Some & ? & _).
  rewrite !missing_str_false, !missing_num_false by (done || lia). done.
Qed.






(** Entering [POST /bet] with an [open_for] request and no failure. *)
Ltac enter_post_bet Hopen :=
  let Hfields := fresh "Hfields" in
  pose proof (open_for_fields _ _ _ _ _ Hopen) as Hfields;
  destruct Hopen as (_ & _ & ?Hpos & ?H1 & ?Hp & ?Hst & ?Hnow);
  apply wp_run_eq; unfold post_bet; cbv zeta;
  rewrite Hfields;
  match goal with H : parse_position _ = Some _ |- _ => rewrite H end;
  match goal with |- context [?x <? 1] => destruct (x <? 1) eqn:?; [lia|] end.

Ltac close_rejects :=
  try match goal with
      | Hst : status ?p = S_open, H : negb (market_status_eqb (status ?p) S_open) = true |- _ =>
          rewrite Hst in H; done
      end.



Lemma post_bet_duplicate now req pos p d :
  open_for now req pos p d →
  min_bet p ≤ req_amount req ≤ max_bet p →
  SELECT_user_bet (req_predictionId req) (req_email req) d ≠ [] →
  run (post_bet now req) None d = (Return (Status 400 AlreadyPlacedBet), d).
Proof.
  intros Hopen Hb Hsel.
  assert ((0 <? length (SELECT_user_bet (req_predictionId req) (req_email req) d))%nat = true)
    as Hlen by (by destruct (SELECT_user_bet _ _ d)).
  enter_post_bet Hopen. wp_known; close_rejects.
Qed.


(** The two writes of [POST /api/kalshi/bet]. *)
Lemma kalshi_bet_writes req pos m a d d1 b d2 :
  user_tokens d !! kreq_email req = Some a →
  UPDATE_user_tokens [(col_balance, - kreq_amount req)] (kreq_email req) d = Return d1 →
  INSERT_kalshi_bets (kreq_email req) (kreq_marketTicker req) pos (kreq_amount req)
    (potentialPayout (kreq_amount req) (kalshi_multiplier m pos)) (kalshi_multiplier m pos)
    (km_status m) d1 = Return (b, d2) →
  b = kalshi_bet_row req pos m d ∧ d2 = with_kalshi_bet req pos m a d.
Proof.
  intros Ha H1 H2.
  apply UPDATE_user_tokens_inv in H1. rewrite Ha in H1.
  destruct H1 as (a' & Ha' & ->).
  rewrite add_columns_one in Ha'. case_match; [|done]. injection Ha' as <-.
  by apply INSERT_kalshi_bets_inv in H2 as (-> & -> & _).
Qed.

(** What [POST /api/kalshi/bet] does, for every statement the storage may
    fail at. *)
Lemma kalshi_post_bet_spec api req f d r d' :
  run (kalshi_post_bet api req) f d = (r, d') →
  match r with
  | Return (Json reply) =>
      ∃ pos m a,
        parse_position (kreq_position req) = Some pos
        ∧ api (kreq_marketTicker req) = Some m
        ∧ user_tokens d !! kreq_email req = Some a
        ∧ 10 ≤ kreq_amount req ≤ balance a
        ∧ SELECT_kalshi_bet (kreq_marketTicker req) (kreq_email req) d = []
        ∧ reply = KalshiBetReply (kalshi_bet_row req pos m d) (balance a - kreq_amount req)
        ∧ d' = with_kalshi_bet req pos m a d
  | Return (Status _ e) =>
      d' = d
      ∨ (f = Some 8%nat ∧ e = QueryFailed
         ∧ ∃ pos m a,
             parse_position (kreq_position req) = Some pos
             ∧ api (kreq_marketTicker req) = Some m
             ∧ user_tokens d !! kreq_email req = Some a
             ∧ 10 ≤ kreq_amount req ≤ balance a
             ∧ SELECT_kalshi_bet (kreq_marketTicker req) (kreq_email req) d = []
             ∧ d' = with_kalshi_bet req pos m a d)
  | Throw _ => False
  end.
Proof.
  revert r d'.
  apply (wp_run (λ r d', match r with
                         | Return (Json reply) => _
                         | Return (Status _ e) => d' = d ∨ _
                         | Throw _ => False
                         end)).
  unfold kalshi_post_bet. cbv zeta. wp_steps; try by left.
  all: match goal with
       | Ha : user_tokens ?d0 !! _ = Some ?a,
         H1 : UPDATE_user_tokens _ _ ?d0 = Return _,
         H2 : INSERT_kalshi_bets _ _ _ _ _ _ _ _ = Return _ |- _ =>
           destruct (kalshi_bet_writes _ _ _ _ _ _ _ _ Ha H1 H2) as (-> & ->)
       end.
  - right. split_and!; try done. do 3 eexists. split_and!; try done; try lia.
    match goal with H : (0 <? length ?l)%nat = false |- ?l = [] => by destruct l end.
  - exfalso.
    match goal with H : user_tokens (with_kalshi_bet _ _ _ _ _) !! _ = None |- _ =>
      cbn in H; by rewrite lookup_insert_eq in H end.
  - match goal with H : user_tokens (with_kalshi_bet _ _ _ _ _) !! _ = Some _ |- _ =>
      cbn in H; rewrite lookup_insert_eq in H; injection H as <- end.
    do 3 eexists. split_and!; try done; try lia.
    all: try (cbn; do 2 f_equal; lia).
    match goal with H : (0 <? length ?l)%nat = false |- ?l = [] => by destruct l end.
Qed.

Lemma kalshi_open_for_fields api req pos m :
  kalshi_open_for api req pos m → kreq_amount req ≠ 0 →
  missing_str (kreq_email req) || missing_str (kreq_marketTicker req)
  || missing_str (kreq_position req) || missing_num (kreq_amount req) = false.
Proof.
  intros (? & ? & Hpos%parse_position_Some & _) ?.
  by rewrite !missing_str_false, !missing_num_false.
Qed.


Ltac enter_kalshi_post_bet Hopen :=
  let Hfields := fresh "Hfields" in
  pose proof (kalshi_open_for_fields _ _ _ _ Hopen ltac:(lia)) as Hfields;
  destruct Hopen as (_ & _ & ?Hpos & ?Hm & ?Hst);
  apply wp_run_eq; unfold kalshi_post_bet; cbv zeta;
  rewrite Hfields;
  match goal with H : parse_position _ = Some _ |- _ => rewrite H end;
  match goal with |- context [?x <? 10] => destruct (x <? 10) eqn:?; [lia|] end;
  match goal with H : _ (kreq_marketTicker _) = Some _ |- _ => rewrite H end.

Lemma kalshi_status_check m :
  km_status m = "open" ∨ km_status m = "active" →
  negb (String.eqb (km_status m) "open" || String.eqb (km_status m) "active") = false.
Proof. by intros [->| ->]. Qed.




Lemma kalshi_post_bet_duplicate api req pos m a d :
  kalshi_open_for api req pos m → 10 ≤ kreq_amount req →
  user_tokens d !! kreq_email req = Some a →
  kreq_amount req ≤ balance a →
  SELECT_kalshi_bet (kreq_marketTicker req) (kreq_email req) d ≠ [] →
  run (kalshi_post_bet api req) None d = (Return (Status 400 AlreadyPlacedBet), d).
Proof.
  intros Hopen Hmin Ha Hle Hsel.
  assert ((0 <? length (SELECT_kalshi_bet (kreq_marketTicker req) (kreq_email req) d))%nat
          = true) as Hlen by (by destruct (SELECT_kalshi_bet _ _ d)).
  pose proof (kalshi_status_check m (proj2 (proj2 (proj2 (proj2 Hopen))))) as Hsc.
  enter_kalshi_post_bet Hopen. wp_known.
Qed.





(** ** Bounds on the amount *)



(** Closing the side conditions of a statement at concrete data. *)
Ltac by_computing :=
  repeat split;
  first [ done | reflexivity | discriminate | (vm_compute; reflexivity)
        | (vm_compute; discriminate) | (left; reflexivity) | (right; reflexivity)
        | (cbn; lia) ].


(** ** Settlement *)


Lemma UPDATE_user_bets_inv won tw id d d' :
  UPDATE_user_bets won tw id d = Return d' →
  d' = set_user_bets
         (map (λ b, if bool_decide (bet_id b = id) then settled won tw b else b)) d.
Proof. unfold UPDATE_user_bets. case_match; [|done]. by intros [= <-]. Qed.

Lemma UPDATE_predictions_inv g id d d' :
  UPDATE_predictions g id d = Return d' →
  user_tokens d' = user_tokens d ∧ user_bets d' = user_bets d
  ∧ kalshi_bets d' = kalshi_bets d ∧ payout_requests d' = payout_requests d
  ∧ match predictions d !! id with
    | Some p => d' = set_predictions (insert id (g p)) d
    | None => d' = d
    end.
Proof.
  unfold UPDATE_predictions. destruct (predictions d !! id); by intros [= <-].
Qed.







(** ** Where the settlement paths part ways *)

(** C1, at the failing input.  [manualResolve] has no check of the status:
    called with outcome no on the market the admin route resolved as yes and
    paid out, it returns normally and rewrites the outcome; called on the
    market the interrupted auto-resolver left resolved with its wager still
    active, it also settles that wager and moves the counters of the ledger.
    The admin route rejects both calls and changes nothing. *)
Theorem manualResolve_on_resolved_market :
  market_state 1 bob_paid = Some (S_resolved, Some Yes)
  ∧ (∃ results d',
       run (manualResolve 1600 1 "no" admin "Manual resolution") None bob_paid
       = (Return results, d')
       ∧ market_state 1 d' = Some (S_resolved, Some No)
       ∧ wager_states d' = [(bob, B_won, 200)])
  ∧ market_state 1 bob_unpaid = Some (S_resolved, Some Yes)
  ∧ ledger bob bob_unpaid = Some (900, 0, 0)
  ∧ (∃ results d',
       run (manualResolve 2100 1 "no" admin "Manual resolution") None bob_unpaid
       = (Return results, d')
       ∧ ledger bob d' = Some (900, 0, 100)
       ∧ wager_states d' = [(bob, B_lost, 0)])
  ∧ run (post_resolve 1600 (ResolveRequest 1 "no" admin "")) None bob_paid
    = (Return (Status 400 PredictionAlreadyResolved), bob_paid)
  ∧ run (post_resolve 2100 (ResolveRequest 1 "no" admin "")) None bob_unpaid
    = (Return (Status 400 PredictionAlreadyResolved), bob_unpaid).
Proof.
  split_and!; try (vm_compute; reflexivity).
  - do 2 eexists. split; [vm_compute; reflexivity|]. split; vm_compute; reflexivity.
  - do 2 eexists. split; [vm_compute; reflexivity|]. split; vm_compute; reflexivity.
Qed.


(** C2, at the failing inputs.  The auto-resolver writes the resolved status
    in a statement of its own: when the transaction that pays the wagers
    fails, the market stays resolved and its wager active and unpaid.  The
    Kalshi pass has no transaction at all: a failure after the first update
    leaves Bob's wager marked won without the credit, a failure one statement
    later leaves Bob paid and Carol's wager unsettled. *)
Theorem settlement_not_atomic_outside_admin_route :
  market_state 1 bob_closed = Some (S_closed, None)
  ∧ market_state 1 bob_unpaid = Some (S_resolved, Some Yes)
  ∧ wager_states bob_unpaid = [(bob, B_active, 0)]
  ∧ ledger bob bob_unpaid = Some (900, 0, 0)
  ∧ kalshi_wager_states two_on_kalshi = [(bob, B_active, 0); (carol, B_active, 0)]
  ∧ (let d' := step two_on_kalshi (KalshiSync kalshi_final, Some 3%nat) in
     kalshi_wager_states d' = [(bob, B_won, 200); (carol, B_active, 0)]
     ∧ ledger bob d' = Some (900, 0, 0))
  ∧ (let d' := step two_on_kalshi (KalshiSync kalshi_final, Some 4%nat) in
     kalshi_wager_states d' = [(bob, B_won, 200); (carol, B_active, 0)]
     ∧ ledger bob d' = Some (1100, 200, 0)
     ∧ ledger carol d' = Some (900, 0, 0)).
Proof. cbv zeta. split_and!; vm_compute; reflexivity. Qed.

(** C3, at the failing input.  Bob's winning wager of 100 tokens with a
    payout of 200: the Kalshi pass adds the whole payout to [total_won], the
    admin route and the auto-resolver add the net profit of 100. *)
Theorem kalshi_sync_counts_gross_winnings :
  ledger bob bob_on_kalshi = Some (900, 0, 0)
  ∧ ledger bob (step bob_on_kalshi (KalshiSync kalshi_final, None)) = Some (1100, 200, 0)
  ∧ ledger bob bob_in = Some (900, 0, 0)
  ∧ ledger bob bob_paid = Some (1100, 100, 0)
  ∧ ledger bob (step bob_closed (AutoResolve 2000 green, None)) = Some (1100, 100, 0).
Proof. split_and!; vm_compute; reflexivity. Qed.

(** ** Invariants of the database *)

(** A property [I] of the database that each write of the handlers keeps is
    kept by every operation, at every point where something is committed,
    whatever statement the storage fails at.  [R], [RK] and [RP] are what [I]
    tells of each wager, Kalshi wager and payout request. *)
Section invariant.
Variable I : DB → Prop.
Variable R : bet → Prop.
Variable RK : kalshi_bet → Prop.
Variable RP : payout_request → Prop.

Hypothesis I_rows : ∀ d b, I d → b ∈ user_bets d → R b.
Hypothesis I_kalshi_rows : ∀ d b, I d → b ∈ kalshi_bets d → RK b.
Hypothesis I_payout_rows : ∀ d r, I d → r ∈ payout_requests d → RP r.

Hypothesis I_resolved : ∀ d id p o src now who,
  I d → predictions d !! id = Some p →
  I (set_predictions (insert id (set_resolved o src now who p)) d).
Hypothesis I_settled : ∀ d won tw id,
  I d →
  I (set_user_bets
       (map (λ b, if bool_decide (bet_id b = id) then settled won tw b else b)) d).
Hypothesis I_win : ∀ d b d',
  I d → R b →
  UPDATE_user_tokens
    [(col_balance, potential_payout b);
     (col_total_won, potential_payout b - tokens_wagered b)] (user_email b) d
  = Return d' →
  I d'.
Hypothesis I_loss : ∀ d b d',
  I d → R b →
  UPDATE_user_tokens [(col_total_lost, tokens_wagered b)] (user_email b) d = Return d' →
  I d'.

(** The two statements for one wager. *)
Lemma settle_bet_keeps o b c :
  I (db c) → R b →
  wp (settle_bet o b) (λ _ c', tx c' = tx c ∧ I (db c'))
     (λ _ c', tx c' = tx c ∧ I (db c')) c.
Proof.
  intros Hd Hb. destruct c as [d t f n]. cbn in *.
  unfold settle_bet. cbv zeta. wp_steps; try done.
  all: repeat match goal with
       | H : UPDATE_user_bets _ _ _ _ = Return _ |- _ =>
           apply UPDATE_user_bets_inv in H; subst
       end.
  all: split; [done|].
  all: try (by apply I_settled).
  all: (eapply I_win + eapply I_loss); [| |eassumption];
    [by apply I_settled|done].
Qed.

(** The loop over the active wagers of a market. *)
Lemma settle_loop_keeps o rows c :
  I (db c) → Forall R rows →
  wp (for_each rows (λ bet, settle_bet o bet ;;; ret tt))
     (λ _ c', tx c' = tx c ∧ I (db c'))
     (λ _ c', tx c' = tx c ∧ I (db c')) c.
Proof.
  intros Hd Hrows.
  apply (wp_for_each (λ c', tx c' = tx c ∧ I (db c'))); [done| |done].
  intros x c' Hx [Htx Hc']. apply wp_bind.
  eapply wp_mono; [apply settle_bet_keeps; [done|]| |].
  - rewrite Forall_forall in Hrows. by apply Hrows.
  - cbn. intros ? c'' [Htx'' Hc'']. wp_steps. split; [congruence|done].
  - cbn. intros ? c'' [Htx'' Hc'']. split; [congruence|done].
Qed.

Lemma SELECT_active_bets_rows id d :
  I d → Forall R (SELECT_active_bets id d).
Proof.
  intros Hd. apply Forall_forall. intros b Hb.
  apply list_elem_of_filter in Hb as [_ Hb]. by eapply I_rows.
Qed.

(** [processBetsForPrediction] *)
Lemma processBetsForPrediction_keeps id o c :
  tx c = None → I (db c) →
  wp (processBetsForPrediction id o) (λ _ c', tx c' = None ∧ I (db c'))
     (λ _ c', tx c' = None ∧ I (db c')) c.
Proof.
  intros Htx Hd. destruct c as [d t f n]. cbn in *. subst t.
  unfold processBetsForPrediction. wp_steps; try done.
  eapply wp_mono; [apply settle_loop_keeps; [done|by apply SELECT_active_bets_rows]| |].
  - cbn. intros ? [d1 t1 f1 n1] [Htx1 Hd1]. cbn in *. subst. wp_steps; done.
  - cbn. intros ? [d1 t1 f1 n1] [Htx1 Hd1]. cbn in *. subst. wp_steps; done.
Qed.

Lemma UPDATE_predictions_resolved_keeps o src now who id d d' :
  I d → UPDATE_predictions (set_resolved o src now who) id d = Return d' → I d'.
Proof.
  intros Hd H. apply UPDATE_predictions_inv in H as (_ & _ & _ & _ & H).
  destruct (predictions d !! id) eqn:Hp; subst; eauto.
Qed.

(** [manualResolve] *)
Lemma manualResolve_keeps now id outcome who src c :
  tx c = None → I (db c) →
  wp (manualResolve now id outcome who src) (λ _ c', tx c' = None ∧ I (db c'))
     (λ _ c', tx c' = None ∧ I (db c')) c.
Proof.
  intros Htx Hd. destruct c as [d t f n]. cbn in *. subst t.
  unfold manualResolve. wp_steps; try done.
  apply processBetsForPrediction_keeps; [done|]. cbn.
  by eapply UPDATE_predictions_resolved_keeps.
Qed.

(** The loop of [resolveReadyPredictions] *)
Lemma resolve_each_keeps now o rows : ∀ resolved failed c,
  tx c = None → I (db c) →
  wp (resolve_each now o rows resolved failed) (λ _ c', tx c' = None ∧ I (db c'))
     (λ _ c', tx c' = None ∧ I (db c')) c.
Proof.
  induction rows as [|[id p] rows IH]; intros resolved failed c Htx Hd;
    cbn [resolve_each].
  - by apply wp_ret.
  - destruct c as [d t f n]. cbn in *. subst t.
    repeat case_match; simplify_eq; try (by apply IH).
    all: wp_steps; try done.
    all: eapply wp_mono;
      [apply processBetsForPrediction_keeps;
       [done|cbn; by eapply UPDATE_predictions_resolved_keeps]| |done].
    all: cbn; intros ? c' [Htx' Hd']; by apply IH.
Qed.

(** [resolveReadyPredictions] *)
Lemma resolveReadyPredictions_keeps now o c :
  tx c = None → I (db c) →
  wp (resolveReadyPredictions now o) (λ _ c', tx c' = None ∧ I (db c'))
     (λ _ c', tx c' = None ∧ I (db c')) c.
Proof.
  intros Htx Hd. destruct c as [d t f n]. cbn in *. subst t.
  unfold resolveReadyPredictions. wp_steps; try done.
  eapply wp_mono; [apply resolve_each_keeps; done| |].
  - cbn. intros ? c' [? ?]. by wp_steps.
  - cbn. intros ? c' [? ?]. by wp_steps.
Qed.

(** [POST /:id/resolve] *)
Lemma post_resolve_keeps now req c :
  tx c = None → I (db c) →
  wp (post_resolve now req) (λ _ c', tx c' = None ∧ I (db c'))
     (λ _ c', tx c' = None ∧ I (db c')) c.
Proof.
  intros Htx Hd. destruct c as [d t f n]. cbn in *. subst t.
  unfold post_resolve. cbv zeta. wp_steps; try done.
  eapply wp_mono;
    [apply settle_loop_keeps;
     [cbn; by eapply UPDATE_predictions_resolved_keeps|]| |].
  - apply SELECT_active_bets_rows. by eapply UPDATE_predictions_resolved_keeps.
  - cbn. intros ? [d1 t1 f1 n1] [Htx1 Hd1]. cbn in *. subst. wp_steps; done.
  - cbn. intros ? [d1 t1 f1 n1] [Htx1 Hd1]. cbn in *. subst. wp_steps; done.
Qed.

Hypothesis I_kalshi_settled : ∀ d won tw id,
  I d →
  I (set_kalshi_bets
       (map (λ b, if bool_decide (kb_id b = id) then kalshi_settled won tw b else b)) d).
Hypothesis I_kalshi_win : ∀ d b d',
  I d → RK b →
  UPDATE_user_tokens
    [(col_balance, kb_potential_payout b); (col_total_won, kb_potential_payout b)]
    (kb_user_email b) d = Return d' →
  I d'.
Hypothesis I_kalshi_loss : ∀ d b d',
  I d → RK b →
  UPDATE_user_tokens [(col_total_lost, kb_tokens_wagered b)] (kb_user_email b) d
  = Return d' →
  I d'.

Lemma UPDATE_kalshi_bets_inv won tw id d d' :
  UPDATE_kalshi_bets won tw id d = Return d' →
  d' = set_kalshi_bets
         (map (λ b, if bool_decide (kb_id b = id) then kalshi_settled won tw b else b)) d.
Proof. unfold UPDATE_kalshi_bets. case_match; [|done]. by intros [= <-]. Qed.

(** The statements of the Kalshi pass for one wager, each committed on its
    own. *)
Lemma sync_bet_keeps outcome b c :
  tx c = None → I (db c) → RK b →
  wp (sync_bet outcome b) (λ _ c', tx c' = None ∧ I (db c'))
     (λ _ c', tx c' = None ∧ I (db c')) c.
Proof.
  intros Htx Hd Hb. destruct c as [d t f n]. cbn in *. subst t.
  unfold sync_bet. cbv zeta. wp_steps; try done.
  all: repeat match goal with
       | H : UPDATE_kalshi_bets _ _ _ _ = Return _ |- _ =>
           apply UPDATE_kalshi_bets_inv in H; subst
       end.
  all: split; [done|].
  all: try (by apply I_kalshi_settled).
  all: (eapply I_kalshi_win + eapply I_kalshi_loss); [| |eassumption];
    [by apply I_kalshi_settled|done].
Qed.

Lemma sync_market_keeps api tk c :
  tx c = None → I (db c) →
  wp (sync_market api tk) (λ _ c', tx c' = None ∧ I (db c'))
     (λ _ c', tx c' = None ∧ I (db c')) c.
Proof.
  intros Htx Hd. destruct c as [d t f n]. cbn in *. subst t.
  unfold sync_market. wp_steps; try done.
  apply (wp_for_each (λ c', tx c' = None ∧ I (db c'))); [done| |done].
  intros b c' Hb [Htx' Hd'].
  eapply wp_mono; [apply sync_bet_keeps| |].
  - exact Htx'.
  - exact Hd'.
  - apply list_elem_of_filter in Hb as [_ Hb]. by eapply (I_kalshi_rows d).
  - by intros ? ? ?.
  - cbn. intros ? c'' Hc''. by wp_steps.
Qed.

Lemma sync_markets_keeps api rows c :
  tx c = None → I (db c) →
  wp (for_each rows (sync_market api)) (λ _ c', tx c' = None ∧ I (db c'))
     (λ _ c', tx c' = None ∧ I (db c')) c.
Proof.
  intros Htx Hd.
  apply (wp_for_each (λ c', tx c' = None ∧ I (db c'))); [done| |done].
  intros tk c' _ [Htx' Hd']. by apply sync_market_keeps.
Qed.

(** [POST /api/kalshi/sync-resolutions] *)
Lemma kalshi_post_sync_resolutions_keeps api c :
  tx c = None → I (db c) →
  wp (kalshi_post_sync_resolutions api) (λ _ c', tx c' = None ∧ I (db c'))
     (λ _ c', tx c' = None ∧ I (db c')) c.
Proof.
  intros Htx Hd. destruct c as [d t f n]. cbn in *. subst t.
  unfold kalshi_post_sync_resolutions. wp_steps; try done.
  eapply wp_mono; [by apply sync_markets_keeps| |].
  - cbn. intros ? c' Hc'. by wp_steps.
  - cbn. intros ? c' Hc'. by wp_steps.
Qed.

Hypothesis I_refund : ∀ d r d',
  I d → RP r →
  UPDATE_user_tokens [(col_balance, tokens_amount r)] (pr_user_email r) d = Return d' →
  I d'.
Hypothesis I_reviewed : ∀ d st b,
  I d →
  I (set_payout_requests
       (map (λ r, if bool_decide (pr_id r = proc_payoutId b) then reviewed st b r else r)) d).

(** [POST /admin/process-payout] *)
Lemma post_admin_process_payout_keeps b c :
  tx c = None → I (db c) →
  wp (post_admin_process_payout b) (λ _ c', tx c' = None ∧ I (db c'))
     (λ _ c', tx c' = None ∧ I (db c')) c.
Proof.
  intros Htx Hd. destruct c as [d t f n]. cbn in *. subst t.
  unfold post_admin_process_payout. wp_steps; try done.
  all: unfold UPDATE_payout_requests in *; simplify_eq.
  all: split; [done|].
  all: try (apply I_reviewed).
  all: try done.
  all: match goal with
       | H : SELECT_payout_request _ ?d0 = Some ?r,
         H' : UPDATE_user_tokens _ _ ?d0 = Return _ |- _ =>
           eapply (I_refund _ r); [done| |exact H'];
           eapply I_payout_rows; [done|];
           apply head_Some_elem_of in H;
           by apply list_elem_of_filter in H as [_ ?]
       end.
Qed.

Variable funds_ok : Z → Prop.
Variable market_ok : create_body → Prop.

Hypothesis I_funds : ∀ d e n d',
  I d → funds_ok n →
  UPDATE_user_tokens [(col_balance, n); (col_total_purchased, n)] e d = Return d' →
  I d'.
Hypothesis I_account : ∀ d e,
  I d → user_tokens d !! e = None →
  I (set_user_tokens (insert e (Account 0 0 0 0)) d).
Hypothesis I_market : ∀ d st b x d',
  I d → market_ok b → INSERT_predictions st b d = Return (x, d') → I d'.
Hypothesis I_sweep : ∀ d cond st,
  I d → I (set_predictions (fmap (λ p, if (cond p : bool) then set_status st p else p)) d).

(** [POST /tokens/webhook] *)
Lemma post_tokens_webhook_keeps e n c :
  funds_ok n → tx c = None → I (db c) →
  wp (post_tokens_webhook e n) (λ _ c', tx c' = None ∧ I (db c'))
     (λ _ c', tx c' = None ∧ I (db c')) c.
Proof.
  intros Hn Htx Hd. destruct c as [d t f k]. cbn in *. subst t.
  unfold post_tokens_webhook. wp_steps; try done.
  split; [done|]. by eapply I_funds.
Qed.

(** [GET /tokens/balance] *)
Lemma get_tokens_balance_keeps e c :
  tx c = None → I (db c) →
  wp (get_tokens_balance e) (λ _ c', tx c' = None ∧ I (db c'))
     (λ _ c', tx c' = None ∧ I (db c')) c.
Proof.
  intros Htx Hd. destruct c as [d t f k]. cbn in *. subst t.
  unfold get_tokens_balance, getOrCreateTokenAccount. wp_steps; simplify_eq; try done.
  match goal with
  | H1 : user_tokens ?d0 !! ?e0 = None, H2 : context [user_tokens ?d0 !! ?e0] |- _ =>
      rewrite H1 in H2; simplify_eq
  end.
  split; [done|]. by apply I_account.
Qed.

(** [POST /admin/create] and the generator *)
Lemma post_admin_create_keeps b c :
  market_ok b → tx c = None → I (db c) →
  wp (post_admin_create b) (λ _ c', tx c' = None ∧ I (db c'))
     (λ _ c', tx c' = None ∧ I (db c')) c.
Proof.
  intros Hb Htx Hd. destruct c as [d t f k]. cbn in *. subst t.
  unfold post_admin_create. wp_steps; simplify_eq; try done.
  split; [done|]. by eapply I_market.
Qed.

Lemma createPrediction_keeps b c :
  market_ok b → tx c = None → I (db c) →
  wp (createPrediction b) (λ _ c', tx c' = None ∧ I (db c'))
     (λ _ c', tx c' = None ∧ I (db c')) c.
Proof.
  intros Hb Htx Hd. destruct c as [d t f k]. cbn in *. subst t.
  unfold createPrediction. wp_steps; simplify_eq; try done.
  split; [done|]. by eapply I_market.
Qed.

(** [updatePredictionStatuses] *)
Lemma updatePredictionStatuses_keeps now c :
  tx c = None → I (db c) →
  wp (updatePredictionStatuses now) (λ _ c', tx c' = None ∧ I (db c'))
     (λ _ c', tx c' = None ∧ I (db c')) c.
Proof.
  intros Htx Hd. destruct c as [d t f k]. cbn in *. subst t.
  unfold updatePredictionStatuses, UPDATE_predictions_where.
  wp_steps; simplify_eq; try done.
  all: split; [done|]; repeat apply I_sweep; done.
Qed.

Hypothesis I_bet : ∀ d req pos p a,
  I d →
  predictions d !! req_predictionId req = Some p →
  user_tokens d !! req_email req = Some a →
  1 ≤ req_amount req ≤ balance a →
  SELECT_user_bet (req_predictionId req) (req_email req) d = [] →
  I (with_bet req pos p a d).
Hypothesis I_kalshi_bet : ∀ d req pos m a,
  I d →
  user_tokens d !! kreq_email req = Some a →
  10 ≤ kreq_amount req ≤ balance a →
  SELECT_kalshi_bet (kreq_marketTicker req) (kreq_email req) d = [] →
  I (with_kalshi_bet req pos m a d).
Hypothesis I_payout : ∀ d e t a row,
  I d →
  user_tokens d !! e = Some a →
  MIN_PAYOUT_TOKENS ≤ t ≤ balance a →
  tokens_amount row = t →
  I (set_payout_requests (λ l, l ++ [row])
       (set_user_tokens (insert e (add_balance (- t) a)) d)).

Lemma run_keeps {A} (m : M A) f d :
  (∀ c, tx c = None → I (db c) →
        wp m (λ _ c', tx c' = None ∧ I (db c')) (λ _ c', tx c' = None ∧ I (db c')) c) →
  I d → I (run m f d).2.
Proof.
  intros Hm Hd. destruct (run m f d) as [r d'] eqn:Hrun. cbn.
  revert r d' Hrun. apply (wp_run (λ _ d', I d')).
  eapply wp_mono; [by apply Hm| |].
  all: intros ? [d1 t1 f1 n1] [Ht Hd1]; cbn in *; by subst.
Qed.

(** Dropping the answer does not change what is committed. *)
Lemma run_drop {A} (m : M A) f d :
  (run (m ;;; ret tt) f d).2 = (run m f d).2.
Proof. unfold run, bind, ret. by destruct (m _) as [[a|e] c]. Qed.

(** Every operation keeps [I]. *)
Lemma step_keeps op f d :
  allowed funds_ok market_ok op → I d → I (step d (op, f)).
Proof.
  intros Hop Hd. unfold step. cbn [fst snd].
  destruct op; cbn [handler allowed] in *; rewrite ?run_drop.
  - apply run_keeps; [|done]. intros. by apply get_tokens_balance_keeps.
  - apply run_keeps; [|done]. intros. by apply post_tokens_webhook_keeps.
  - apply run_keeps; [|done]. intros. by apply post_admin_create_keeps.
  - apply run_keeps; [|done]. intros. by apply createPrediction_keeps.
  - apply run_keeps; [|done]. intros. by apply updatePredictionStatuses_keeps.
  - destruct (run (post_bet now req) f d) as [r d'] eqn:Hrun. cbn.
    apply post_bet_spec in Hrun. destruct r as [[reply|code e]|e]; [| |done].
    + destruct Hrun as (pos & p & a & _ & Hp & Ha & _ & _ & _ & Hle & Hsel & _ & ->).
      by apply I_bet.
    + destruct Hrun as [->|(_ & _ & pos & p & a & _ & Hp & Ha & Hle & Hsel & ->)];
        [done|by apply I_bet].
  - apply run_keeps; [|done]. intros. by apply post_resolve_keeps.
  - apply run_keeps; [|done]. intros. by apply resolveReadyPredictions_keeps.
  - apply run_keeps; [|done]. intros. by apply manualResolve_keeps.
  - destruct (run (post_payout_request req) f d) as [r d'] eqn:Hrun. cbn.
    apply post_payout_request_spec in Hrun.
    destruct r as [[row|code e]|e]; [|by subst|done].
    destruct Hrun as (a & Ha & Hle & _ & Hrow & ->).
    apply I_payout; [done..|]. by rewrite Hrow.
  - apply run_keeps; [|done]. intros. by apply post_admin_process_payout_keeps.
  - destruct (run (kalshi_post_bet api req) f d) as [r d'] eqn:Hrun. cbn.
    apply kalshi_post_bet_spec in Hrun. destruct r as [[reply|code e]|e]; [| |done].
    + destruct Hrun as (pos & m & a & _ & _ & Ha & Hle & Hsel & _ & ->).
      by apply I_kalshi_bet.
    + destruct Hrun as [->|(_ & _ & pos & m & a & _ & _ & Ha & Hle & Hsel & ->)];
        [done|by apply I_kalshi_bet].
  - apply run_keeps; [|done]. intros. by apply kalshi_post_sync_resolutions_keeps.
Qed.

(** Every sequence of operations keeps [I]. *)
Lemma steps_keep calls : ∀ d,
  Forall (λ call, allowed funds_ok market_ok call.1) calls → I d → I (steps d calls).
Proof.
  induction calls as [|[op f] calls IH]; intros d Hall Hd; [done|].
  apply Forall_cons in Hall as [Hop Hall]. cbn.
  apply IH; [done|]. by apply step_keeps.
Qed.
End invariant.

(** ** No balance goes below zero *)






Lemma elem_of_map {A B} (f : A → B) (l : list A) (y : B) :
  y ∈ map f l → ∃ x, y = f x ∧ x ∈ l.
Proof. exact (proj1 (list_elem_of_fmap f l y)). Qed.











(** ** One wager per user and market *)

Lemma unique_wagers_frame d d' :
  user_bets d' = user_bets d → kalshi_bets d' = kalshi_bets d →
  unique_wagers d → unique_wagers d'.
Proof. unfold unique_wagers. by intros -> ->. Qed.

Lemma unique_UPDATE_user_tokens sets e d d' :
  unique_wagers d → UPDATE_user_tokens sets e d = Return d' → unique_wagers d'.
Proof.
  intros Hd (_ & ? & ? & _)%UPDATE_user_tokens_frame. by eapply unique_wagers_frame.
Qed.

Lemma keys_of_map {A K} (key : A → K) (g : A → A) (l : list A) :
  (∀ x, key (g x) = key x) → key <$> map g l = key <$> l.
Proof. intros Hg. induction l as [|x l IH]; cbn; [done|]. by rewrite Hg, IH. Qed.

Lemma filter_nil_elem {A} (P : A → Prop) `{∀ x, Decision (P x)} (l : list A) x :
  filter P l = [] → x ∈ l → ¬ P x.
Proof.
  intros Hnil Hx HP. assert (x ∈ filter P l) as Hin by (by apply list_elem_of_filter).
  rewrite Hnil in Hin. by apply elem_of_nil in Hin.
Qed.

Lemma NoDup_snoc {K} (key : K) (keys : list K) :
  NoDup keys → key ∉ keys → NoDup (keys ++ [key]).
Proof.
  intros Hnd Hk. apply NoDup_app. split_and!; [done| |apply NoDup_singleton].
  intros k Hin ->%list_elem_of_singleton. done.
Qed.

Lemma unique_steps calls d :
  unique_wagers d → unique_wagers (steps d calls).
Proof.
  intros Hd.
  apply (steps_keep unique_wagers (λ _, True) (λ _, True) (λ _, True))
    with (funds_ok := λ _, True) (market_ok := λ _, True); try done.
  - intros d0 won tw id [Hb Hk]. split; [|done]. cbn.
    rewrite keys_of_map; [done|]. intros b. by case_bool_decide.
  - intros. by eapply unique_UPDATE_user_tokens.
  - intros. by eapply unique_UPDATE_user_tokens.
  - intros d0 won tw id [Hb Hk]. split; [done|]. cbn.
    rewrite keys_of_map; [done|]. intros b. by case_bool_decide.
  - intros. by eapply unique_UPDATE_user_tokens.
  - intros. by eapply unique_UPDATE_user_tokens.
  - intros. by eapply unique_UPDATE_user_tokens.
  - intros. by eapply unique_UPDATE_user_tokens.
  - intros d0 st b x d' Hd0 _. unfold INSERT_predictions.
    case_match; [done|]. by intros [= <- <-].
  - intros d0 req pos p a [Hb Hk] _ _ _ Hsel. split; [|done].
    cbn. rewrite fmap_app. apply NoDup_snoc; [done|].
    intros (b & Hkey & Hin)%list_elem_of_fmap. cbn in Hkey.
    apply (filter_nil_elem _ _ _ Hsel Hin).
    unfold wager_key in Hkey. by simplify_eq.
  - intros d0 req pos m a [Hb Hk] _ _ Hsel. split; [done|].
    cbn. rewrite fmap_app. apply NoDup_snoc; [done|].
    intros (b & Hkey & Hin)%list_elem_of_fmap. cbn in Hkey.
    apply (filter_nil_elem _ _ _ Hsel Hin).
    unfold kalshi_wager_key in Hkey. by simplify_eq.
  - apply Forall_forall. intros [op f] _. by destruct op.
Qed.

(** A bet of a user who already has a wager on the market is rejected and
    writes nothing, whichever statement the storage fails at. *)
Lemma post_bet_second_rejected now req f d :
  SELECT_user_bet (req_predictionId req) (req_email req) d ≠ [] →
  ∃ code e, run (post_bet now req) f d = (Return (Status code e), d).
Proof.
  intros Hsel. destruct (run (post_bet now req) f d) as [r d'] eqn:E.
  apply post_bet_spec in E. destruct r as [[reply|code e]|e]; [| |done].
  - by destruct E as (? & ? & ? & _ & _ & _ & _ & _ & _ & _ & ? & _).
  - destruct E as [->|(_ & _ & ? & ? & ? & _ & _ & _ & _ & ? & _)]; [eauto|done].
Qed.

Lemma kalshi_post_bet_second_rejected api req f d :
  SELECT_kalshi_bet (kreq_marketTicker req) (kreq_email req) d ≠ [] →
  ∃ code e, run (kalshi_post_bet api req) f d = (Return (Status code e), d).
Proof.
  intros Hsel. destruct (run (kalshi_post_bet api req) f d) as [r d'] eqn:E.
  apply kalshi_post_bet_spec in E. destruct r as [[reply|code e]|e]; [| |done].
  - by destruct E as (? & ? & ? & _ & _ & _ & _ & ? & _).
  - destruct E as [->|(_ & _ & ? & ? & ? & _ & _ & _ & _ & ? & _)]; [eauto|done].
Qed.

Lemma length_pos_of_ne_nil {A} (l : list A) : l ≠ [] → (0 <? length l)%nat = true.
Proof. by destruct l. Qed.

(** C7.  From a database with at most one wager per user and market, every
    sequence of operations, whichever statement of each the storage fails at,
    leads to one with at most one wager per user and market.  A bet of a user
    who has a wager on the market, internal or Kalshi, is rejected and writes
    nothing; if it reaches the existence check it is rejected as a duplicate;
    and the insertion itself would violate the unique index. *)
Theorem one_wager_per_user_and_market
    calls d0 now req pos p f d api kreq kpos m ka kf dk w po mu :
  (unique_wagers d0 → unique_wagers (steps d0 calls))
  ∧ (SELECT_user_bet (req_predictionId req) (req_email req) d ≠ [] →
     (∃ code e, run (post_bet now req) f d = (Return (Status code e), d))
     ∧ (open_for now req pos p d → min_bet p ≤ req_amount req ≤ max_bet p →
        ∃ e, classify e = DuplicateBet
             ∧ run (post_bet now req) None d = (Return (Status 400 e), d))
     ∧ (int4 w = true → int4 po = true →
        INSERT_user_bets (req_email req) (req_predictionId req) pos w po mu d
        = Throw UniqueViolation))
  ∧ (SELECT_kalshi_bet (kreq_marketTicker kreq) (kreq_email kreq) dk ≠ [] →
     (∃ code e, run (kalshi_post_bet api kreq) kf dk = (Return (Status code e), dk))
     ∧ (kalshi_open_for api kreq kpos m → 10 ≤ kreq_amount kreq →
        user_tokens dk !! kreq_email kreq = Some ka → kreq_amount kreq ≤ balance ka →
        ∃ e, classify e = DuplicateBet
             ∧ run (kalshi_post_bet api kreq) None dk = (Return (Status 400 e), dk))
     ∧ (int4 w = true → int4 po = true →
        INSERT_kalshi_bets (kreq_email kreq) (kreq_marketTicker kreq) kpos w po mu
          (km_status m) dk
        = Throw UniqueViolation)).
Proof.
  split_and!.
  - apply unique_steps.
  - intros Hsel. split_and!.
    + by apply post_bet_second_rejected.
    + intros. exists AlreadyPlacedBet. split; [done|]. by eapply post_bet_duplicate.
    + intros Hw Hpo. unfold INSERT_user_bets.
      by rewrite Hw, Hpo, length_pos_of_ne_nil.
  - intros Hsel. split_and!.
    + by apply kalshi_post_bet_second_rejected.
    + intros. exists AlreadyPlacedBet. split; [done|].
      by eapply kalshi_post_bet_duplicate.
    + intros Hw Hpo. unfold INSERT_kalshi_bets.
      by rewrite Hw, Hpo, length_pos_of_ne_nil.
Qed.

Lemma one_wager_per_user_and_market_witness :
  unique_wagers
    (steps empty_db (bob_history ++ [(PlaceBet 600 (bob_bets 50), None);
                                     (KalshiBet_ kalshi_open (bob_bets_kalshi 20), None)]))
  ∧ ((∃ code e, run (post_bet 600 (bob_bets 50)) (Some 5%nat) bob_in
                = (Return (Status code e), bob_in))
     ∧ (∃ e, classify e = DuplicateBet
             ∧ run (post_bet 600 (bob_bets 50)) None bob_in
               = (Return (Status 400 e), bob_in))
     ∧ INSERT_user_bets bob 1 Yes 50 100 2%Q bob_in = Throw UniqueViolation)
  ∧ ((∃ code e, run (kalshi_post_bet kalshi_open (bob_bets_kalshi 20)) (Some 6%nat)
                  bob_on_kalshi
                = (Return (Status code e), bob_on_kalshi))
     ∧ (∃ e, classify e = DuplicateBet
             ∧ run (kalshi_post_bet kalshi_open (bob_bets_kalshi 20)) None bob_on_kalshi
               = (Return (Status 400 e), bob_on_kalshi))
     ∧ INSERT_kalshi_bets bob "FED-25" Yes 50 100 2%Q "open" bob_on_kalshi
       = Throw UniqueViolation).
Proof.
  pose proof (one_wager_per_user_and_market
                (bob_history ++ [(PlaceBet 600 (bob_bets 50), None);
                                 (KalshiBet_ kalshi_open (bob_bets_kalshi 20), None)])
                empty_db 600 (bob_bets 50) Yes (add_volume Yes 100 spy_market)
                (Some 5%nat) bob_in
                kalshi_open (bob_bets_kalshi 20) Yes fed_market (Account 900 1000 0 0)
                (Some 6%nat) bob_on_kalshi 50 100 2%Q)
    as (H1 & H2 & H3).
  split_and!.
  - apply H1. split; constructor.
  - apply H2. by vm_compute.
  - apply H2; [by vm_compute|by_computing|by_computing].
  - apply H2; by vm_compute.
  - apply H3. by vm_compute.
  - apply H3; [by vm_compute|by_computing..].
  - apply H3; by vm_compute.
Defined.

(** ** The Kalshi synchronisation and the Settlement Engine *)

Section engine.
Variable I : DB → Prop.
Variable R : bet → Prop.
Hypothesis I_rows : ∀ d b, I d → b ∈ user_bets d → R b.
Hypothesis I_resolved : ∀ d id p o src now who,
I d → predictions d !! id = Some p →
I (set_predictions (insert id (set_resolved o src now who p)) d).
Hypothesis I_settled : ∀ d won tw id,
I d →
I (set_user_bets
     (map (λ b, if bool_decide (bet_id b = id) then settled won tw b else b)) d).
Hypothesis I_win : ∀ d b d',
I d → R b →
UPDATE_user_tokens
  [(col_balance, potential_payout b);
   (col_total_won, potential_payout b - tokens_wagered b)] (user_email b) d
= Return d' →
I d'.
Hypothesis I_loss : ∀ d b d',
I d → R b →
UPDATE_user_tokens [(col_total_lost, tokens_wagered b)] (user_email b) d = Return d' →
I d'.


End engine.


Lemma UPDATE_user_tokens_two c1 n1 c2 n2 email a d :
  user_tokens d !! email = Some a →
  int4 n1 = true → int4 (get_column c1 a + n1) = true →
  int4 n2 = true → int4 (get_column c2 (add_column c1 n1 a) + n2) = true →
  UPDATE_user_tokens [(c1, n1); (c2, n2)] email d
  = Return (set_user_tokens (insert email (add_column c2 n2 (add_column c1 n1 a))) d).
Proof.
  intros Ha H1 H2 H3 H4. unfold UPDATE_user_tokens. rewrite Ha.
  cbn [add_columns]. by rewrite H1, H2, H3, H4.
Qed.









(** * Further properties of the handlers *)

(** ** The admin resolution route *)




(** ** The status sweep *)

Lemma sweep_frame now f d :
  let d' := (run (updatePredictionStatuses now) f d).2 in
  user_tokens d' = user_tokens d ∧ user_bets d' = user_bets d
  ∧ kalshi_bets d' = kalshi_bets d ∧ payout_requests d' = payout_requests d.
Proof.
  cbv zeta. destruct (run (updatePredictionStatuses now) f d) as [r d'] eqn:Hrun. cbn.
  revert r d' Hrun.
  apply (wp_run (λ _ d', user_tokens d' = user_tokens d ∧ user_bets d' = user_bets d
                         ∧ kalshi_bets d' = kalshi_bets d
                         ∧ payout_requests d' = payout_requests d)).
  unfold updatePredictionStatuses, UPDATE_predictions_where. wp_steps; wp_simpl; done.
Qed.

Lemma sweep_cases now f d :
  let ps' := predictions (run (updatePredictionStatuses now) f d).2 in
  ps' = predictions d
  ∨ ps' = opened now <$> predictions d
  ∨ ps' = closed now <$> (opened now <$> predictions d).
Proof.
  cbv zeta. destruct (run (updatePredictionStatuses now) f d) as [r d'] eqn:Hrun. cbn.
  revert r d' Hrun.
  apply (wp_run (λ _ d', predictions d' = predictions d
                         ∨ predictions d' = opened now <$> predictions d
                         ∨ predictions d' = closed now <$> (opened now <$> predictions d))).
  unfold updatePredictionStatuses, UPDATE_predictions_where. wp_steps; wp_simpl; auto.
Qed.

Lemma sweep_no_fault now d :
  predictions (run (updatePredictionStatuses now) None d).2
  = closed now <$> (opened now <$> predictions d).
Proof. done. Qed.

Lemma sweep_run now d :
  (run (updatePredictionStatuses now) None d).2
  = set_predictions (λ ps, closed now <$> (opened now <$> ps)) d.
Proof. by destruct d. Qed.

Lemma market_status_eqb_eq s t : market_status_eqb s t = true ↔ s = t.
Proof. destruct s, t; cbn; split; (done || discriminate). Qed.

Lemma opened_step now p : sweep_step now p (opened now p).
Proof.
  unfold opened, sweep_step.
  destruct (market_status_eqb _ _ && _ && _) eqn:E; [|by left].
  apply andb_prop in E as [[Hs%market_status_eqb_eq Ho%Z.leb_le]%andb_prop Hc%Z.ltb_lt].
  right; left. done.
Qed.

Lemma closed_step now p : sweep_step now p (closed now p).
Proof.
  unfold closed, sweep_step.
  destruct (market_status_eqb _ _ && _) eqn:E; [|by left].
  apply andb_prop in E as [Hs%market_status_eqb_eq Hc%Z.leb_le].
  right; right. done.
Qed.

Lemma closed_opened_step now p : sweep_step now p (closed now (opened now p)).
Proof.
  destruct (opened_step now p) as [->|[(Hs & Hw & ->)|(Hs & Hw & ->)]].
  - apply closed_step.
  - unfold closed. cbn.
    replace (closes_at p <=? now) with false by (symmetry; apply Z.leb_gt; lia).
    cbn. right; left. done.
  - unfold closed. cbn. right; right. done.
Qed.

Lemma sweep_step_forward now p p' :
  sweep_step now p p' →
  (status_rank (status p) ≤ status_rank (status p'))%nat
  ∧ (status p = S_closed ∨ status p = S_resolved → p' = p)
  ∧ set_status (status p) p' = p.
Proof.
  intros [->|[(Hs & _ & ->)|(Hs & _ & ->)]]; cbn; rewrite ?Hs; cbn.
  - split_and!; [lia|done|by destruct p].
  - split_and!; [lia|by intros [|]|]. destruct p; cbn in *. by subst.
  - split_and!; [lia|by intros [|]|]. destruct p; cbn in *. by subst.
Qed.

(** X3.  [updatePredictionStatuses], whichever of its two statements the
    storage fails at, writes nothing but the status of markets: accounts,
    wagers and payout requests are as before, no market appears or
    disappears, and a market either is as before, or was upcoming inside its
    betting window and is now open, or was open past its closing time and is
    now closed.  So the status only moves forward, and a closed or resolved
    market is never touched. *)
Theorem sweep_moves_status_forward now f d id :
  let d' := (run (updatePredictionStatuses now) f d).2 in
  user_tokens d' = user_tokens d ∧ user_bets d' = user_bets d
  ∧ kalshi_bets d' = kalshi_bets d ∧ payout_requests d' = payout_requests d
  ∧ match predictions d !! id, predictions d' !! id with
    | Some p, Some p' =>
        sweep_step now p p'
        ∧ (status_rank (status p) ≤ status_rank (status p'))%nat
        ∧ (status p = S_closed ∨ status p = S_resolved → p' = p)
        ∧ set_status (status p) p' = p
    | None, None => True
    | _, _ => False
    end.
Proof.
  cbv zeta. destruct (sweep_frame now f d) as (Hu & Hb & Hk & Hp).
  split_and!; try done.
  destruct (sweep_cases now f d) as [->|[->| ->]]; rewrite ?lookup_fmap;
    destruct (predictions d !! id) as [p|]; cbn; try done.
  - split; [by left|]. apply (sweep_step_forward now). by left.
  - split; [apply opened_step|]. apply (sweep_step_forward now), opened_step.
  - split; [apply closed_opened_step|].
    apply (sweep_step_forward now), closed_opened_step.
Qed.

Ltac split_ifs :=
  repeat (match goal with
          | |- context [if ?b then _ else _] => destruct b eqn:?
          end; cbn in *);
  repeat match goal with
         | H : _ && _ = true |- _ => apply andb_prop in H as [? ?]
         | H : _ && _ = false |- _ => apply andb_false_iff in H as [?|?]
         | H : (_ <=? _) = true |- _ => apply Z.leb_le in H
         | H : (_ <=? _) = false |- _ => apply Z.leb_gt in H
         | H : (_ <? _) = true |- _ => apply Z.ltb_lt in H
         | H : (_ <? _) = false |- _ => apply Z.ltb_ge in H
         end.

Lemma sweep_idem now p :
  closed now (opened now (closed now (opened now p))) = closed now (opened now p).
Proof.
  unfold closed, opened. destruct p as [? ? ? ? ? ? ? o c ? s ? ? ? ? ? ? ?]. cbn.
  destruct s; cbn; split_ifs; try done; lia.
Qed.

(** X4.  When no statement fails, [updatePredictionStatuses] leaves no
    market open at or past its closing time, opens every upcoming market
    whose betting window contains the current time, and running it again at
    the same time changes nothing. *)
Theorem sweep_closes_what_is_due now d id :
  let d' := (run (updatePredictionStatuses now) None d).2 in
  match predictions d !! id, predictions d' !! id with
  | Some p, Some p' =>
      (status p' = S_open → now < closes_at p')
      ∧ (status p = S_upcoming → opens_at p ≤ now < closes_at p → status p' = S_open)
      ∧ (status p = S_open → closes_at p ≤ now → status p' = S_closed)
  | None, None => True
  | _, _ => False
  end
  ∧ (run (updatePredictionStatuses now) None d').2 = d'.
Proof.
  cbv zeta. split.
  - rewrite sweep_no_fault, !lookup_fmap.
    destruct (predictions d !! id) as [p|]; cbn; [|done].
    unfold closed, opened. destruct p as [? ? ? ? ? ? ? o c ? s ? ? ? ? ? ? ?]. cbn.
    destruct s; cbn; split_ifs; split_and!; try done; lia.
  - rewrite !sweep_run. destruct d as [ut ps ub kb pr].
    unfold set_predictions. cbn. f_equal.
    rewrite <-!map_fmap_compose. apply map_fmap_ext. intros i p _. apply sweep_idem.
Qed.

(** ** The auto-resolver *)

(** [processBetsForPrediction] writes no market. *)
Lemma processBetsForPrediction_markets (P : gmap Z prediction → Prop) id o c :
  tx c = None → P (predictions (db c)) →
  wp (processBetsForPrediction id o) (λ _ c', tx c' = None ∧ P (predictions (db c')))
     (λ _ c', tx c' = None ∧ P (predictions (db c'))) c.
Proof.
  intros Htx HP.
  apply (processBetsForPrediction_keeps (λ d, P (predictions d)) (λ _, True)); try done.
  - intros d b d' Hd _ (Hp & _)%UPDATE_user_tokens_frame. by rewrite Hp.
  - intros d b d' Hd _ (Hp & _)%UPDATE_user_tokens_frame. by rewrite Hp.
Qed.

Lemma resolution_of_cases o p :
  (if String.eqb (subcategory p) "close_green"
   then Some (resolveDailyCloseGreen o p)
   else if String.eqb (subcategory p) "range"
        then Some (resolveWeeklyRange o p) else None)
  = if String.eqb (subcategory p) "close_green" || String.eqb (subcategory p) "range"
    then Some (resolution_of o p) else None.
Proof. unfold resolution_of. by repeat case_match. Qed.

Lemma resolve_each_leaves now o id0 p0 rows : ∀ resolved failed c,
  tx c = None → predictions (db c) !! id0 = Some p0 →
  Forall (λ x, x.1 = id0 → resolution_of o x.2 = None) rows →
  wp (resolve_each now o rows resolved failed)
     (λ _ c', tx c' = None ∧ predictions (db c') !! id0 = Some p0)
     (λ _ c', tx c' = None ∧ predictions (db c') !! id0 = Some p0) c.
Proof.
  induction rows as [|[id p] rows IH]; intros resolved failed c Htx Hp0 Hrows.
  { by apply wp_ret. }
  apply Forall_cons in Hrows as [Hrow Hrows]. cbn [resolve_each].
  rewrite resolution_of_cases. cbn [fst snd] in Hrow.
  destruct (_ || _); [|by apply IH].
  destruct (resolution_of o p) as [[out src]|] eqn:Hres; [|by apply IH].
  assert (id ≠ id0) as Hne by (intros ->; by specialize (Hrow eq_refl)).
  destruct c as [d t fl n]. cbn in Htx, Hp0. subst t.
  wp_steps; wp_simpl; try done.
  match goal with H : UPDATE_predictions _ _ _ = Return _ |- _ =>
    apply UPDATE_predictions_inv in H; destruct H as (_ & _ & _ & _ & H) end.
  eapply wp_mono.
  - apply (processBetsForPrediction_markets (λ ps, ps !! id0 = Some p0)); [done|].
    cbn. destruct (predictions d !! id); subst; [|done].
    cbn. by rewrite lookup_insert_ne.
  - intros ? c' [? ?]. wp_steps. by apply IH.
  - by intros ? c' [? ?].
Qed.

Lemma SELECT_ready_predictions_elem now d x :
  x ∈ SELECT_ready_predictions now d ↔ predictions d !! x.1 = Some x.2 ∧ ready now x.2.
Proof.
  unfold SELECT_ready_predictions. rewrite merge_sort_Permutation.
  rewrite list_elem_of_filter. destruct x as [id p]. cbn.
  rewrite elem_of_map_to_list. unfold ready. tauto.
Qed.

(** X5.  [resolveReadyPredictions], whichever statement the storage fails
    at, leaves a market as it is unless the market is closed, without
    outcome and due, and the oracle has an answer for it: a market still
    upcoming or open, a market already resolved, a market of an unknown
    subcategory and a market without a quote are not touched. *)
Theorem auto_resolver_touches_only_due_markets now o f d id p :
  predictions d !! id = Some p →
  ¬ ready now p ∨ resolution_of o p = None →
  predictions (run (resolveReadyPredictions now o) f d).2 !! id = Some p.
Proof.
  intros Hp Hskip.
  destruct (run (resolveReadyPredictions now o) f d) as [r d'] eqn:Hrun. cbn.
  revert r d' Hrun. apply (wp_run (λ _ d', predictions d' !! id = Some p)).
  unfold resolveReadyPredictions. wp_steps; wp_simpl; try done.
  match goal with H : SELECT_ready_predictions _ _ = _ |- _ => rename H into Hrows end.
  eapply wp_mono.
  - apply (resolve_each_leaves now o id p); [done|done|].
    apply Forall_forall. intros [id1 p1] Hin. cbn. intros ->.
    rewrite <-Hrows in Hin. apply SELECT_ready_predictions_elem in Hin as [Hp1 Hready].
    cbn in *. rewrite Hp in Hp1. simplify_eq. by destruct Hskip.
  - intros ? [? t ? ?] [Ht ?]. wp_steps. cbn in *. by subst.
  - intros ? [? t ? ?] [Ht ?]. wp_steps. cbn in *. by subst.
Qed.

Lemma auto_resolver_touches_only_due_markets_witness :
  predictions (run (resolveReadyPredictions 2000 green) None bob_in).2 !! 1
  = predictions bob_in !! 1
  ∧ predictions
      (run (resolveReadyPredictions 2000 (Oracle (λ _, None) (λ _, None))) (Some 1%nat)
         bob_closed).2 !! 1
    = predictions bob_closed !! 1.
Proof.
  split.
  - apply (auto_resolver_touches_only_due_markets 2000 green None bob_in 1
             (add_volume Yes 100 spy_market)); [by vm_compute|].
    left. intros [? _]. done.
  - apply (auto_resolver_touches_only_due_markets 2000 (Oracle (λ _, None) (λ _, None))
             (Some 1%nat) bob_closed 1
             (set_status S_closed (add_volume Yes 100 spy_market))); [by vm_compute|].
    right. done.
Defined.

Lemma resolve_each_no_resolution now o rows : ∀ resolved failed,
  Forall (λ x : Z * prediction, resolution_of o x.2 = None) rows →
  resolve_each now o rows resolved failed
  = ret (resolved, (failed + length (filter (λ x, auto_resolved x.2 = true) rows))%nat).
Proof.
  induction rows as [|[id p] rows IH]; intros resolved failed Hrows.
  { cbn. by rewrite Nat.add_0_r. }
  apply Forall_cons in Hrows as [Hrow Hrows]. cbn [resolve_each].
  rewrite resolution_of_cases. cbn [snd] in Hrow. rewrite Hrow.
  rewrite filter_cons. cbn [snd]. fold (auto_resolved p).
  destruct (auto_resolved p); rewrite IH by done.
  - rewrite decide_True by done. cbn. do 2 f_equal. lia.
  - by rewrite decide_False by done.
Qed.

(** X6.  Without quotes the auto-resolver resolves nothing: when the oracle
    answers for no ticker, [resolveReadyPredictions] leaves the whole
    database as it is, whichever statement the storage fails at, and when
    none fails it reports no market resolved and, as failed, every selected
    market of a subcategory it knows. *)
Theorem auto_resolver_waits_for_quotes now o f d :
  (∀ tk, getQuote o tk = None) →
  (∃ r, run (resolveReadyPredictions now o) f d = (Return r, d))
  ∧ run (resolveReadyPredictions now o) None d
    = (Return (Resolved 0 (length (filter (λ x, auto_resolved x.2 = true)
                                     (SELECT_ready_predictions now d)))), d).
Proof.
  intros Hq.
  assert (∀ rows : list (Z * prediction),
            Forall (λ x, resolution_of o x.2 = None) rows) as Hnone.
  { intros rows. apply Forall_forall. intros [id p] _. cbn.
    unfold resolution_of, resolveDailyCloseGreen, resolveWeeklyRange.
    rewrite Hq. by repeat case_match. }
  split.
  - destruct (run (resolveReadyPredictions now o) f d) as [r d'] eqn:Hrun.
    revert r d' Hrun.
    apply (wp_run (λ r d', ∃ r0, (r, d') = (Return r0, d))).
    unfold resolveReadyPredictions. wp_steps; wp_simpl; eauto.
    rewrite resolve_each_no_resolution by done. wp_steps. wp_simpl. eauto.
  - apply wp_run_eq. unfold resolveReadyPredictions. wp_steps; wp_simpl; try done.
    rewrite resolve_each_no_resolution by done. wp_steps. by wp_simpl.
Qed.

Lemma auto_resolver_waits_for_quotes_witness :
  (∃ r, run (resolveReadyPredictions 2000 (Oracle (λ _, None) (λ _, None))) (Some 0%nat)
          bob_closed = (Return r, bob_closed))
  ∧ run (resolveReadyPredictions 2000 (Oracle (λ _, None) (λ _, None))) None bob_closed
    = (Return (Resolved 0 1), bob_closed).
Proof.
  apply (auto_resolver_waits_for_quotes 2000 (Oracle (λ _, None) (λ _, None))
           (Some 0%nat) bob_closed).
  done.
Defined.

(** ** What the operations do to the markets *)

Section markets.
Variable P : gmap Z prediction → Prop.
Hypothesis P_resolved : ∀ ps id p o src now who,
  P ps → ps !! id = Some p → P (<[id := set_resolved o src now who p]> ps).
Hypothesis P_created : ∀ d st b x d',
  P (predictions d) → INSERT_predictions st b d = Return (x, d') → P (predictions d').
Hypothesis P_opened : ∀ ps now, P ps → P (opened now <$> ps).
Hypothesis P_closed : ∀ ps now, P ps → P (closed now <$> ps).
Hypothesis P_bet : ∀ ps id p pos n,
  P ps → ps !! id = Some p → 1 ≤ n → P (<[id := add_volume pos n p]> ps).


Lemma markets_UPDATE_user_tokens sets e d d' :
  P (predictions d) → UPDATE_user_tokens sets e d = Return d' → P (predictions d').
Proof. intros Hd (Hp & _)%UPDATE_user_tokens_frame. by rewrite Hp. Qed.

(** A property of the table of markets that resolving, creating, opening
    and closing a market and counting a bet keep is kept by every
    operation, whichever statement the storage fails at. *)
Lemma markets_step_keeps op f d :
  P (predictions d) → P (predictions (step d (op, f))).
Proof.
  intros Hd. unfold step. cbn [fst snd].
  destruct op; cbn [handler]; rewrite ?run_drop.
  - apply (run_keeps (on_markets P)); [|done]. intros.
    by apply (get_tokens_balance_keeps (on_markets P)).
  - apply (run_keeps (on_markets P)); [|done]. intros.
    apply (post_tokens_webhook_keeps (on_markets P) (λ _, True)); try done.
    intros. by eapply markets_UPDATE_user_tokens.
  - apply (run_keeps (on_markets P)); [|done]. intros.
    apply (post_admin_create_keeps (on_markets P) (λ _, True)); try done.
    intros. by eapply P_created.
  - apply (run_keeps (on_markets P)); [|done]. intros.
    apply (createPrediction_keeps (on_markets P) (λ _, True)); try done.
    intros. by eapply P_created.
  - destruct (sweep_cases now f d) as [->|[->| ->]]; auto.
  - destruct (run (post_bet now req) f d) as [r d'] eqn:Hrun. cbn.
    apply post_bet_spec in Hrun. destruct r as [[reply|code e]|e]; [| |done].
    + destruct Hrun as (pos & p & a & _ & Hp & _ & _ & _ & _ & Hle & _ & _ & ->).
      cbn. apply P_bet; [done|done|lia].
    + destruct Hrun as [->|(_ & _ & pos & p & a & _ & Hp & _ & Hle & _ & ->)]; [done|].
      cbn. apply P_bet; [done|done|lia].
  - apply (run_keeps (on_markets P)); [|done]. intros.
    apply (post_resolve_keeps (on_markets P) (λ _, True)); try done.
    + intros. by apply P_resolved.
    + intros. by eapply markets_UPDATE_user_tokens.
    + intros. by eapply markets_UPDATE_user_tokens.
  - apply (run_keeps (on_markets P)); [|done]. intros.
    apply (resolveReadyPredictions_keeps (on_markets P) (λ _, True)); try done.
    + intros. by apply P_resolved.
    + intros. by eapply markets_UPDATE_user_tokens.
    + intros. by eapply markets_UPDATE_user_tokens.
  - apply (run_keeps (on_markets P)); [|done]. intros.
    apply (manualResolve_keeps (on_markets P) (λ _, True)); try done.
    + intros. by apply P_resolved.
    + intros. by eapply markets_UPDATE_user_tokens.
    + intros. by eapply markets_UPDATE_user_tokens.
  - destruct (run (post_payout_request req) f d) as [r d'] eqn:Hrun. cbn.
    apply post_payout_request_spec in Hrun.
    destruct r as [[row|code e]|e]; [|by subst|done].
    by destruct Hrun as (a & _ & _ & _ & _ & ->).
  - apply (run_keeps (on_markets P)); [|done]. intros.
    apply (post_admin_process_payout_keeps (on_markets P) (λ _, True)); try done.
    intros. by eapply markets_UPDATE_user_tokens.
  - destruct (run (kalshi_post_bet api req) f d) as [r d'] eqn:Hrun. cbn.
    apply kalshi_post_bet_spec in Hrun. destruct r as [[reply|code e]|e]; [| |done].
    + by destruct Hrun as (pos & m & a & _ & _ & _ & _ & _ & _ & ->).
    + by destruct Hrun as [->|(_ & _ & pos & m & a & _ & _ & _ & _ & _ & ->)].
  - apply (run_keeps (on_markets P)); [|done]. intros.
    apply (kalshi_post_sync_resolutions_keeps (on_markets P) (λ _, True)); try done.
    + intros. by eapply markets_UPDATE_user_tokens.
    + intros. by eapply markets_UPDATE_user_tokens.
Qed.

Lemma markets_steps_keep calls : ∀ d,
  P (predictions d) → P (predictions (steps d calls)).
Proof.
  induction calls as [|[op f] calls IH]; intros d Hd; [done|].
  cbn. apply IH. by apply markets_step_keeps.
Qed.
End markets.

Lemma later_refl p : later p p.
Proof. unfold later, same_terms. split_and!; done || lia. Qed.

Lemma later_set_status p p' s :
  later p p' → (status_rank (status p') ≤ status_rank s)%nat → later p (set_status s p').
Proof.
  intros ((? & ? & ? & ? & ? & ? & ? & ? & ? & ?) & ? & ? & ? & ? & ?) Hs.
  unfold later, same_terms. cbn. split_and!; done || lia.
Qed.

Lemma later_set_resolved p p' o src now who :
  later p p' → later p (set_resolved o src now who p').
Proof.
  intros ((? & ? & ? & ? & ? & ? & ? & ? & ? & ?) & ? & ? & ? & ? & ?).
  unfold later, same_terms. cbn. split_and!; try done; try lia.
  destruct (status p); cbn; lia.
Qed.

Lemma later_add_volume p p' pos n :
  later p p' → 1 ≤ n → later p (add_volume pos n p').
Proof.
  intros ((? & ? & ? & ? & ? & ? & ? & ? & ? & ?) & ? & ? & ? & ? & ?) Hn.
  unfold later, same_terms. cbn. split_and!; try done; destruct pos; lia.
Qed.

Lemma later_opened p p' now : later p p' → later p (opened now p').
Proof.
  intros Hl. unfold opened. case_match; [|done].
  apply later_set_status; [done|].
  repeat match goal with H : _ && _ = true |- _ => apply andb_prop in H as [H ?] end.
  match goal with H : market_status_eqb _ _ = true |- _ =>
    apply market_status_eqb_eq in H; rewrite H end. cbn. lia.
Qed.

Lemma later_closed p p' now : later p p' → later p (closed now p').
Proof.
  intros Hl. unfold closed. case_match; [|done].
  apply later_set_status; [done|].
  repeat match goal with H : _ && _ = true |- _ => apply andb_prop in H as [H ?] end.
  match goal with H : market_status_eqb _ _ = true |- _ =>
    apply market_status_eqb_eq in H; rewrite H end. cbn. lia.
Qed.

(** X7.  Whatever operations are run and whichever statement of each the
    storage fails at, a market is never deleted, its terms (ticker,
    subcategory, multipliers, bounds, betting window, resolution time) never
    change, its status only moves forward from upcoming to open to closed to
    resolved, its volume counters never decrease and an outcome once written
    is never removed. *)
Theorem market_only_moves_forward calls d id p :
  predictions d !! id = Some p →
  ∃ p', predictions (steps d calls) !! id = Some p' ∧ later p p'.
Proof.
  intros Hp.
  apply (markets_steps_keep (λ ps, ∃ p', ps !! id = Some p' ∧ later p p')).
  - intros ps id0 p0 o src now who (p' & Hp' & Hl) Hp0.
    destruct (decide (id0 = id)) as [->|Hne].
    + rewrite lookup_insert_eq. rewrite Hp' in Hp0. simplify_eq.
      eexists. split; [done|]. by apply later_set_resolved.
    + rewrite lookup_insert_ne by done. eauto.
  - intros d0 st b x d' (p' & Hp' & Hl). unfold INSERT_predictions.
    case_match; [done|]. intros [= <- <-]. cbn.
    rewrite lookup_insert_ne; [eauto|].
    assert (id ∈ (map_to_list (predictions d0)).*1) as Hin.
    { apply list_elem_of_fmap. exists (id, p'). split; [done|].
      by apply elem_of_map_to_list. }
    apply next_id_above in Hin. lia.
  - intros ps now (p' & Hp' & Hl). rewrite lookup_fmap, Hp'. cbn.
    eexists. split; [done|]. by apply later_opened.
  - intros ps now (p' & Hp' & Hl). rewrite lookup_fmap, Hp'. cbn.
    eexists. split; [done|]. by apply later_closed.
  - intros ps id0 p0 pos n (p' & Hp' & Hl) Hp0 Hn.
    destruct (decide (id0 = id)) as [->|Hne].
    + rewrite lookup_insert_eq. rewrite Hp' in Hp0. simplify_eq.
      eexists. split; [done|]. by apply later_add_volume.
    + rewrite lookup_insert_ne by done. eauto.
  - exists p. split; [done|apply later_refl].
Qed.

Lemma market_only_moves_forward_witness :
  ∃ p', predictions
          (steps bob_db
             [(PlaceBet 500 (bob_bets 100), None); (Sweep 1000, None);
              (AutoResolve 2000 green, Some 4%nat);
              (ManualResolve 2100 1 "no" admin "Manual resolution", None)]) !! 1
        = Some p'
        ∧ later spy_market p'.
Proof.
  apply (market_only_moves_forward
           [(PlaceBet 500 (bob_bets 100), None); (Sweep 1000, None);
            (AutoResolve 2000 green, Some 4%nat);
            (ManualResolve 2100 1 "no" admin "Manual resolution", None)]
           bob_db 1 spy_market).
  done.
Defined.

(** ** What a settlement pays *)

Lemma UPDATE_user_tokens_alter sets e d d' :
  UPDATE_user_tokens sets e d = Return d' →
  user_tokens d' = alter (λ a, foldl (λ acc cn, add_column cn.1 cn.2 acc) a sets) e
                     (user_tokens d).
Proof.
  intros H. apply UPDATE_user_tokens_inv in H. rewrite alter_alt.
  destruct (user_tokens d !! e) as [a|]; [|by subst].
  destruct H as (a' & Ha'%add_columns_Return & ->). by subst.
Qed.

(** The two statements of [settle_bet] write the account of the bettor and
    no other. *)
Lemma settle_bet_accounts o b c (E : error → conn → Prop) :
  (∀ e c', tx c' = tx c → E e c') →
  wp (settle_bet o b)
     (λ _ c', tx c' = tx c
              ∧ user_tokens (db c')
                = alter (settle_account o b) (user_email b) (user_tokens (db c)))
     E c.
Proof.
  intros HE. destruct c as [d t f n]. cbn in HE.
  unfold settle_bet, settle_account, credited. cbv zeta.
  destruct (position_eqb (bet_position b) o).
  all: wp_steps; wp_simpl; try (apply HE; done).
  all: repeat match goal with
       | H : UPDATE_user_bets _ _ _ _ = Return _ |- _ =>
           apply UPDATE_user_bets_inv in H; subst
       | H : UPDATE_user_tokens _ _ _ = Return _ |- _ =>
           apply UPDATE_user_tokens_alter in H
       end.
  all: by split.
Qed.

Lemma settle_loop_accounts o bets : ∀ c (E : error → conn → Prop),
  (∀ e c', tx c' = tx c → E e c') →
  wp (for_each bets (λ bet, settle_bet o bet ;;; ret tt))
     (λ _ c', tx c' = tx c
              ∧ user_tokens (db c') = accounts_after o bets (user_tokens (db c)))
     E c.
Proof.
  induction bets as [|b bets IH]; intros c E HE.
  { by apply wp_ret. }
  cbn [for_each accounts_after foldl]. apply wp_bind, wp_bind.
  eapply wp_mono; [by apply (settle_bet_accounts o b c E)| |done].
  intros _ c1 [Htx Hacc]. apply wp_ret.
  eapply wp_mono; [apply (IH c1 E)| |done].
  - intros e c' Hc'. apply HE. congruence.
  - intros _ c2 [Htx2 Hacc2]. split; [congruence|]. by rewrite Hacc2, Hacc.
Qed.

(** The sums behind [accounts_after]. *)
Lemma accounts_after_lookup o bets : ∀ m e,
  accounts_after o bets m !! e
  = (λ a, foldl (λ a b, if bool_decide (user_email b = e) then settle_account o b a else a)
            a bets) <$> m !! e.
Proof.
  induction bets as [|b bets IH]; intros m e; cbn.
  { by destruct (m !! e). }
  unfold accounts_after in IH. rewrite IH.
  destruct (decide (user_email b = e)) as [<-|Hne].
  - rewrite lookup_alter_eq, bool_decide_eq_true_2 by done. by destruct (m !! _).
  - rewrite lookup_alter_ne, bool_decide_eq_false_2 by done. done.
Qed.

Lemma settled_account_cons o e b bets a :
  settled_account o e bets
    (if bool_decide (user_email b = e) then settle_account o b a else a)
  = settled_account o e (b :: bets) a.
Proof.
  unfold settled_account, paid_to, profit_of, lost_by. rewrite !filter_cons.
  unfold settle_account, credited.
  case_bool_decide as He.
  - destruct (position_eqb (bet_position b) o) eqn:Hpos.
    + assert (bet_position b = o) as Ho by (by destruct (bet_position b), o).
      rewrite decide_True, decide_False by tauto.
      cbn. f_equal; lia.
    + assert (bet_position b ≠ o) as Ho by (by destruct (bet_position b), o).
      rewrite decide_False, decide_True by tauto.
      cbn. f_equal; lia.
  - rewrite !decide_False by tauto. done.
Qed.

Lemma accounts_after_settled o bets m e :
  accounts_after o bets m !! e = settled_account o e bets <$> m !! e.
Proof.
  rewrite accounts_after_lookup. destruct (m !! e) as [a|]; [|done]. cbn. f_equal.
  revert a. induction bets as [|b bets IH]; intros a; cbn [foldl].
  - unfold settled_account, paid_to, profit_of, lost_by. cbn. destruct a; cbn.
    f_equal; lia.
  - by rewrite IH, settled_account_cons.
Qed.

(** X8.  When [POST /:id/resolve] answers with success, the accounts are
    those before the call with, for every user, the payouts of the user's
    winning active wagers on the market added to the balance, their payouts
    less their stakes added to [total_won], and the stakes of the user's
    losing active wagers added to [total_lost]; no account is created. *)
Theorem admin_resolve_pays now req f d n d' e :
  run (post_resolve now req) f d = (Return (Json n), d') →
  ∃ o, parse_position (res_outcome req) = Some o
       ∧ user_tokens d' !! e
         = settled_account o e (SELECT_active_bets (res_id req) d) <$> user_tokens d !! e.
Proof.
  revert d'. 
  enough (∀ r d', run (post_resolve now req) f d = (r, d') →
            match r with
            | Return (Json _) =>
                ∃ o, parse_position (res_outcome req) = Some o
                     ∧ user_tokens d' !! e
                       = settled_account o e (SELECT_active_bets (res_id req) d)
                           <$> user_tokens d !! e
            | _ => True
            end) as H by (intros d' Hrun; apply (H _ _ Hrun)).
  apply (wp_run (λ r d', match r with
                         | Return (Json _) => _
                         | _ => True
                         end)).
  unfold post_resolve. cbv zeta.
  destruct (missing_str (res_adminEmail req)); [by apply wp_ret|].
  destruct (parse_position (res_outcome req)) as [o|] eqn:Ho; [|by apply wp_ret].
  wp_steps; wp_simpl; try done.
  match goal with H : UPDATE_predictions _ _ _ = Return _ |- _ =>
    apply UPDATE_predictions_inv in H as (Hut & Hub & _) end.
  assert (SELECT_active_bets (res_id req) a = SELECT_active_bets (res_id req) d) as ->
    by (unfold SELECT_active_bets; by rewrite Hub).
  eapply wp_mono; [apply (settle_loop_accounts o _ _ (λ _ _, True)); done| |].
  - intros _ [d1 t1 f1 n1] [Htx Hacc]. cbn in Htx, Hacc. subst t1.
    wp_steps; wp_simpl; try done.
    exists o. split; [done|]. cbn. by rewrite Hacc, accounts_after_settled, Hut.
  - intros ? [d1 t1 f1 n1] _. wp_steps. by destruct t1.
Qed.

Lemma admin_resolve_pays_witness :
  (∃ o, parse_position "yes" = Some o
        ∧ user_tokens (step two_in (AdminResolve 1500 (ResolveRequest 1 "yes" admin ""), None))
            !! carol
          = settled_account o carol (SELECT_active_bets 1 two_in)
              <$> user_tokens two_in !! carol)
  ∧ settled_account Yes carol (SELECT_active_bets 1 two_in) (Account 950 1000 0 0)
    = Account 950 1000 0 50
  ∧ settled_account Yes bob (SELECT_active_bets 1 two_in) (Account 900 1000 0 0)
    = Account 1100 1000 100 0.
Proof.
  split; [|by vm_compute].
  apply (admin_resolve_pays 1500 (ResolveRequest 1 "yes" admin "") None two_in 2).
  by vm_compute.
Defined.

Lemma count_results_total o rows :
  (winners (count_results o rows) + losers (count_results o rows)
   = totalBets (count_results o rows))%nat.
Proof.
  unfold count_results. cbn.
  pose proof (length_filter (λ b, bet_position b = o) rows). lia.
Qed.

(** X9.  [manualResolve] with a result: the accounts are paid as by the
    admin route, for the wagers that were active on the market, and the
    result counts those wagers, winners and losers together.  When it
    throws, whichever statement failed, no account and no wager has
    changed. *)
Theorem manualResolve_pays now id outcome who src f d e :
  match run (manualResolve now id outcome who src) f d with
  | (Return res, d') =>
      ∃ o, parse_position outcome = Some o
           ∧ user_tokens d' !! e
             = settled_account o e (SELECT_active_bets id d) <$> user_tokens d !! e
           ∧ res = count_results o (SELECT_active_bets id d)
           ∧ (winners res + losers res = length (SELECT_active_bets id d))%nat
  | (Throw _, d') => user_tokens d' = user_tokens d ∧ user_bets d' = user_bets d
  end.
Proof.
  destruct (run (manualResolve now id outcome who src) f d) as [r d'] eqn:Hrun.
  revert r d' Hrun.
  apply (wp_run (λ r d', match r with
                         | Return res => _
                         | Throw _ => user_tokens d' = user_tokens d
                                      ∧ user_bets d' = user_bets d
                         end)).
  unfold manualResolve.
  destruct (parse_position outcome) as [o|] eqn:Ho; [|by apply wp_throw].
  unfold processBetsForPrediction.
  wp_steps; wp_simpl; try done.
  all: match goal with H : UPDATE_predictions _ _ _ = Return _ |- _ =>
         apply UPDATE_predictions_inv in H as (Hut & Hub & _) end.
  all: try done.
  assert (SELECT_active_bets id a = SELECT_active_bets id d) as ->
    by (unfold SELECT_active_bets; by rewrite Hub).
  eapply wp_mono;
    [apply (settle_loop_accounts o _ _ (λ _ c', tx c' = Some a)); done| |].
  - intros _ [d1 t1 f1 n1] [Htx Hacc]. cbn in Htx, Hacc. subst t1.
    wp_steps; wp_simpl; try done.
    exists o. split; [done|]. cbn. rewrite Hacc, accounts_after_settled, Hut.
    split_and!; try done. apply count_results_total.
  - intros ? [d1 t1 f1 n1] Htx. cbn in Htx. subst t1. wp_steps. cbn. done.
Qed.

(** ** The token routes *)

(** X10.  [GET /tokens/balance] returns the account of a known user and
    writes nothing; for an unknown user it creates an account with no tokens
    and returns it; without an email it answers 400.  Whatever the email and
    whichever statement the storage fails at, no existing account changes. *)
Theorem balance_route_gets_or_creates email f d e a :
  (email ≠ "" → user_tokens d !! email = Some a → f ≠ Some 0%nat →
   run (get_tokens_balance email) f d = (Return (Json a), d))
  ∧ (email ≠ "" → user_tokens d !! email = None →
     run (get_tokens_balance email) None d
     = (Return (Json (Account 0 0 0 0)),
        set_user_tokens (insert email (Account 0 0 0 0)) d))
  ∧ (email = "" →
     run (get_tokens_balance email) f d = (Return (Status 400 MissingRequiredFields), d))
  ∧ (user_tokens d !! e = Some a →
     user_tokens (run (get_tokens_balance email) f d).2 !! e = Some a).
Proof.
  split_and!.
  - intros He Ha Hf. apply wp_run_eq. unfold get_tokens_balance, getOrCreateTokenAccount.
    rewrite missing_str_false by done. wp_known.
  - intros He Ha. apply wp_run_eq. unfold get_tokens_balance, getOrCreateTokenAccount.
    rewrite missing_str_false by done. wp_known.
    all: match goal with
         | Hk : user_tokens _ !! _ = None, H : context [user_tokens _ !! _] |- _ =>
             rewrite Hk in H
         end.
    all: by simplify_eq.
  - intros ->. by apply wp_run_eq, wp_ret.
  - intros Ha. apply (run_keeps (λ d', user_tokens d' !! e = Some a)); [|done].
    intros c Htx Hc.
    apply (get_tokens_balance_keeps (λ d', user_tokens d' !! e = Some a)); [|done..].
    intros d0 e0 Hd0 He0. cbn. rewrite lookup_insert_ne; [done|]. by intros ->; simplify_eq.
Qed.

Lemma balance_route_gets_or_creates_witness :
  run (get_tokens_balance bob) None bob_db = (Return (Json (Account 1000 1000 0 0)), bob_db)
  ∧ run (get_tokens_balance carol) None bob_db
    = (Return (Json (Account 0 0 0 0)),
       set_user_tokens (insert carol (Account 0 0 0 0)) bob_db)
  ∧ run (get_tokens_balance "") (Some 0%nat) bob_db
    = (Return (Status 400 MissingRequiredFields), bob_db)
  ∧ user_tokens (run (get_tokens_balance carol) (Some 1%nat) bob_db).2 !! bob
    = Some (Account 1000 1000 0 0).
Proof.
  split_and!.
  - by apply (balance_route_gets_or_creates bob None bob_db bob (Account 1000 1000 0 0)).
  - by apply (balance_route_gets_or_creates carol None bob_db bob (Account 1000 1000 0 0)).
  - by apply (balance_route_gets_or_creates "" (Some 0%nat) bob_db bob
                (Account 1000 1000 0 0)).
  - by apply (balance_route_gets_or_creates carol (Some 1%nat) bob_db bob
                (Account 1000 1000 0 0)).
Defined.

(** X11.  [POST /tokens/webhook] always answers that the event was
    received.  For a known account and amounts that fit the columns it adds
    the tokens to the balance and to [total_purchased]; for an unknown
    account, or when a statement fails, it credits nothing, and the answer is
    the same. *)
Theorem webhook_credits_or_drops e n f d a :
  (∃ d', run (post_tokens_webhook e n) f d = (Return (Json tt), d')
         ∧ (d' = d
            ∨ ∃ a0, user_tokens d !! e = Some a0
                    ∧ d' = set_user_tokens
                             (insert e (add_total_purchased n (add_balance n a0))) d))
  ∧ (user_tokens d !! e = None →
     run (post_tokens_webhook e n) f d = (Return (Json tt), d))
  ∧ (f = Some 0%nat ∨ f = Some 1%nat →
     run (post_tokens_webhook e n) f d = (Return (Json tt), d))
  ∧ (user_tokens d !! e = Some a →
     int4 n = true → int4 (balance a + n) = true → int4 (total_purchased a + n) = true →
     run (post_tokens_webhook e n) None d
     = (Return (Json tt),
        set_user_tokens (insert e (add_total_purchased n (add_balance n a))) d)).
Proof.
  split_and!.
  - destruct (run (post_tokens_webhook e n) f d) as [r d'] eqn:Hrun.
    revert r d' Hrun.
    apply (wp_run (λ r d', ∃ d0, (r, d') = (Return (Json tt), d0)
                                 ∧ (d0 = d ∨ ∃ a0, user_tokens d !! e = Some a0 ∧ d0 = _))).
    unfold post_tokens_webhook. wp_steps; wp_simpl; eauto.
    match goal with H : UPDATE_user_tokens _ _ _ = Return _ |- _ =>
      apply UPDATE_user_tokens_inv in H end.
    destruct (user_tokens d !! e) as [acc|]; [|subst; eauto].
    match goal with H : ∃ _, _ |- _ => destruct H as (a' & Ha'%add_columns_Return & ->) end.
    subst. eexists. split; [done|]. right. eauto.
  - intros Ha. apply wp_run_eq. unfold post_tokens_webhook, UPDATE_user_tokens.
    wp_steps; wp_simpl; try done. all: rewrite Ha in *; by simplify_eq.
  - intros [-> | ->]; apply wp_run_eq; unfold post_tokens_webhook; wp_known.
  - intros Ha Hn Hb Hp.
    pose proof (UPDATE_user_tokens_two col_balance n col_total_purchased n e a d
                  Ha Hn Hb Hn Hp) as E1. cbn [add_column] in E1.
    apply wp_run_eq. unfold post_tokens_webhook. wp_known.
Qed.

Lemma webhook_credits_or_drops_witness :
  run (post_tokens_webhook carol 250) None bob_db = (Return (Json tt), bob_db)
  ∧ run (post_tokens_webhook bob 250) (Some 1%nat) bob_db = (Return (Json tt), bob_db)
  ∧ run (post_tokens_webhook bob 250) None bob_db
    = (Return (Json tt),
       set_user_tokens (insert bob (Account 1250 1250 0 0)) bob_db).
Proof.
  split_and!.
  - destruct (webhook_credits_or_drops carol 250 None bob_db (Account 0 0 0 0))
      as (_ & H & _).
    apply H. by vm_compute.
  - destruct (webhook_credits_or_drops bob 250 (Some 1%nat) bob_db (Account 0 0 0 0))
      as (_ & _ & H & _).
    apply H. by right.
  - destruct (webhook_credits_or_drops bob 250 None bob_db (Account 1000 1000 0 0))
      as (_ & _ & _ & H).
    apply H; by vm_compute.
Defined.

(** ** Payouts *)








(** ** Bets that are turned away *)







(** ** The odds of a Kalshi bet *)











(** ** Volume counters *)

Lemma staked_app pos id l1 l2 :
  staked pos id (l1 ++ l2) = staked pos id l1 + staked pos id l2.
Proof.
  unfold staked. rewrite filter_app, fmap_app.
  induction (tokens_wagered <$> filter _ l1) as [|x xs IH]; cbn; lia.
Qed.

Lemma wagers_on_app id l1 l2 :
  wagers_on id (l1 ++ l2) = wagers_on id l1 + wagers_on id l2.
Proof. unfold wagers_on. rewrite filter_app, length_app. lia. Qed.

Lemma staked_settled pos id bid won tw l :
  staked pos id (map (λ b, if bool_decide (bet_id b = bid) then settled won tw b else b) l)
  = staked pos id l.
Proof.
  unfold staked. induction l as [|b l IH]; [done|].
  cbn [map]. rewrite !filter_cons.
  assert (prediction_id (if bool_decide (bet_id b = bid) then settled won tw b else b)
          = prediction_id b
          ∧ bet_position (if bool_decide (bet_id b = bid) then settled won tw b else b)
            = bet_position b
          ∧ tokens_wagered (if bool_decide (bet_id b = bid) then settled won tw b else b)
            = tokens_wagered b) as (E1 & E2 & E3) by (by case_bool_decide).
  rewrite E1, E2. destruct (decide _); cbn; rewrite ?E3; by rewrite IH.
Qed.

Lemma wagers_on_settled id bid won tw l :
  wagers_on id (map (λ b, if bool_decide (bet_id b = bid) then settled won tw b else b) l)
  = wagers_on id l.
Proof.
  unfold wagers_on. f_equal. induction l as [|b l IH]; [done|].
  cbn [map]. rewrite !filter_cons.
  assert (prediction_id (if bool_decide (bet_id b = bid) then settled won tw b else b)
          = prediction_id b) as E1 by (by case_bool_decide).
  rewrite E1. destruct (decide _); cbn; by rewrite IH.
Qed.

Lemma counters_exact_frame d d' :
  predictions d' = predictions d → user_bets d' = user_bets d →
  counters_exact d → counters_exact d'.
Proof. unfold counters_exact. by intros -> ->. Qed.

Lemma counters_exact_UPDATE_user_tokens sets e d d' :
  counters_exact d → UPDATE_user_tokens sets e d = Return d' → counters_exact d'.
Proof.
  intros Hd (? & ? & _)%UPDATE_user_tokens_frame. by eapply counters_exact_frame.
Qed.

Lemma counters_exact_set_market (g : prediction → prediction) id p d :
  (total_yes_tokens (g p) = total_yes_tokens p) →
  (total_no_tokens (g p) = total_no_tokens p) →
  (total_bettors (g p) = total_bettors p) →
  predictions d !! id = Some p →
  counters_exact d → counters_exact (set_predictions (insert id (g p)) d).
Proof.
  intros Hy Hn Hb Hp [Hfk Hsum]. split.
  - intros b Hin. cbn. rewrite lookup_insert_is_Some. destruct (decide (id = prediction_id b)).
    + by left.
    + right. split; [done|]. by apply Hfk.
  - intros id0 p0. cbn. destruct (decide (id = id0)) as [<-|Hne].
    + rewrite lookup_insert_eq. intros [= <-]. rewrite Hy, Hn, Hb. by apply Hsum.
    + rewrite lookup_insert_ne by done. apply Hsum.
Qed.

(** X17.  From a database whose wagers are all on markets of the registry
    and whose volume counters are the sums over the wagers, every sequence
    of operations, whichever statement of each the storage fails at, leads
    to such a database: [total_yes_tokens] and [total_no_tokens] of a market
    are the tokens staked on each side by its wagers, and [total_bettors] is
    the number of its wagers. *)
Theorem volume_counters_stay_exact calls d :
  counters_exact d → counters_exact (steps d calls).
Proof.
  intros Hd.
  apply (steps_keep counters_exact (λ _, True) (λ _, True) (λ _, True))
    with (funds_ok := λ _, True) (market_ok := λ _, True); try done.
  - intros d0 id p o src now who Hd0 Hp. by apply (counters_exact_set_market _ id p).
  - intros d0 won tw id [Hfk Hsum]. split.
    + intros b. cbn. intros (b0 & -> & Hb0)%elem_of_map.
      specialize (Hfk _ Hb0). by case_bool_decide.
    + intros id0 p Hp. cbn [user_bets set_user_bets].
      rewrite !staked_settled, wagers_on_settled. by apply Hsum.
  - intros. by eapply counters_exact_UPDATE_user_tokens.
  - intros. by eapply counters_exact_UPDATE_user_tokens.
  - intros. by eapply counters_exact_UPDATE_user_tokens.
  - intros. by eapply counters_exact_UPDATE_user_tokens.
  - intros. by eapply counters_exact_UPDATE_user_tokens.
  - intros. by eapply counters_exact_UPDATE_user_tokens.
  - intros d0 st b x d' [Hfk Hsum] _. unfold INSERT_predictions.
    case_match; [done|]. intros [= <- <-].
    set (nid := next_id (map_to_list (predictions d0)).*1).
    assert (predictions d0 !! nid = None) as Hfresh.
    { destruct (predictions d0 !! nid) as [p|] eqn:Hp; [|done].
      assert (nid ∈ (map_to_list (predictions d0)).*1) as Hin.
      { apply list_elem_of_fmap. exists (nid, p). split; [done|].
        by apply elem_of_map_to_list. }
      apply next_id_above in Hin. fold nid in Hin. lia. }
    split.
    + intros b0 Hin. cbn. rewrite lookup_insert_is_Some.
      destruct (decide (nid = prediction_id b0)); [by left|].
      right. split; [done|]. by apply Hfk.
    + intros id0 p0. cbn. destruct (decide (nid = id0)) as [<-|Hne].
      * rewrite lookup_insert_eq. intros [= <-]. cbn.
        unfold staked, wagers_on.
        rewrite !filter_none; [done|..].
        all: intros b0 Hb0 Hid; assert (prediction_id b0 = nid) as Hid' by tauto.
        all: specialize (Hfk _ Hb0); rewrite Hid', Hfresh in Hfk; by destruct Hfk.
      * rewrite lookup_insert_ne by done. apply Hsum.
  - intros d0 cond st [Hfk Hsum]. split.
    + intros b Hin. cbn. rewrite lookup_fmap. destruct (Hfk _ Hin) as [p ->]. by eexists.
    + intros id p. cbn. rewrite lookup_fmap.
      destruct (predictions d0 !! id) as [p0|] eqn:Hp0; [|done]. cbn.
      intros [= <-]. specialize (Hsum _ _ Hp0). by destruct (cond p0).
  - intros d0 req pos p a [Hfk Hsum] Hp Ha Hle Hsel. unfold with_bet. split.
    + intros b. cbn. rewrite lookup_insert_is_Some.
      intros [Hin| ->%list_elem_of_singleton]%elem_of_app.
      * destruct (decide (req_predictionId req = prediction_id b)); [by left|].
        right. split; [done|]. by apply Hfk.
      * by left.
    + intros id0 p0. cbn [predictions user_bets set_predictions set_user_bets
                          set_user_tokens].
      rewrite !staked_app, wagers_on_app.
      destruct (decide (req_predictionId req = id0)) as [<-|Hne].
      * rewrite lookup_insert_eq. intros [= <-].
        destruct (Hsum _ _ Hp) as (Hy & Hn & Hb).
        unfold staked, wagers_on. rewrite !filter_cons, !filter_nil. cbn.
        destruct pos.
        -- rewrite decide_True, decide_False, decide_True by (done || by intros [_ ?]).
           cbn. split_and!; unfold staked, wagers_on in *; lia.
        -- rewrite decide_False, decide_True, decide_True by (done || by intros [_ ?]).
           cbn. split_and!; unfold staked, wagers_on in *; lia.
      * rewrite lookup_insert_ne by done. intros Hp0.
        destruct (Hsum _ _ Hp0) as (Hy & Hn & Hb).
        unfold staked, wagers_on. rewrite !filter_cons, !filter_nil. cbn.
        rewrite !decide_False by (by intros [? _] || done).
        cbn. split_and!; unfold staked, wagers_on in *; lia.
  - apply Forall_forall. intros [op f] _. by destruct op.
Qed.

Lemma volume_counters_stay_exact_witness :
  counters_exact (steps empty_db (bob_history ++ [(PlaceBet 600 (bob_bets 50), None)])).
Proof.
  apply (volume_counters_stay_exact (bob_history ++ [(PlaceBet 600 (bob_bets 50), None)])
           empty_db).
  split.
  - by intros b ?%elem_of_nil.
  - intros id p. cbn. by rewrite lookup_empty.
Defined.

(** ** The Kalshi synchronisation *)

(** X18.  [POST /api/kalshi/sync-resolutions], whichever statement the
    storage fails at, never writes the wagers of the registry, the markets
    or the payout requests; and as long as the venue reports a result for
    no market it writes nothing at all. *)
Theorem kalshi_sync_writes_only_kalshi_wagers_and_accounts api f d :
  let d' := (run (kalshi_post_sync_resolutions api) f d).2 in
  user_bets d' = user_bets d ∧ predictions d' = predictions d
  ∧ payout_requests d' = payout_requests d
  ∧ ((∀ tk m, api tk = Some m → km_result m = "") → d' = d).
Proof.
  cbv zeta.
  assert (user_bets (run (kalshi_post_sync_resolutions api) f d).2 = user_bets d
          ∧ predictions (run (kalshi_post_sync_resolutions api) f d).2 = predictions d
          ∧ payout_requests (run (kalshi_post_sync_resolutions api) f d).2
            = payout_requests d) as (Hb & Hp & Hr).
  { apply (run_keeps (λ d', user_bets d' = user_bets d ∧ predictions d' = predictions d
                            ∧ payout_requests d' = payout_requests d)); [|done].
    intros c Htx Hc.
    apply (kalshi_post_sync_resolutions_keeps
             (λ d', user_bets d' = user_bets d ∧ predictions d' = predictions d
                    ∧ payout_requests d' = payout_requests d) (λ _, True)); try done.
    - intros d0 b d1 (? & ? & ?) _ (? & ? & ? & ?)%UPDATE_user_tokens_frame.
      split_and!; congruence.
    - intros d0 b d1 (? & ? & ?) _ (? & ? & ? & ?)%UPDATE_user_tokens_frame.
      split_and!; congruence. }
  split_and!; try done.
  intros Hopen. clear Hb Hp Hr.
  destruct (run (kalshi_post_sync_resolutions api) f d) as [r d'] eqn:Hrun. cbn.
  revert r d' Hrun. apply (wp_run (λ _ d', d' = d)).
  unfold kalshi_post_sync_resolutions. wp_steps; wp_simpl; try done.
  apply (wp_for_each (λ c, tx c = None ∧ db c = d)); [done| |].
  - intros tk [d1 t1 f1 n1] _ [Ht Hd1]. cbn in Ht, Hd1. subst.
    unfold sync_market. apply wp_try_catch.
    destruct (api tk) as [m|] eqn:Hm; [|by apply wp_ret].
    rewrite (Hopen _ _ Hm). cbn. case_match; by apply wp_ret.
  - intros [d1 t1 f1 n1] [Ht Hd1]. cbn in Ht, Hd1. subst. wp_steps. done.
Qed.

Lemma kalshi_sync_writes_only_kalshi_wagers_and_accounts_witness :
  user_bets (run (kalshi_post_sync_resolutions kalshi_final) (Some 3%nat) two_on_kalshi).2
  = user_bets two_on_kalshi
  ∧ (run (kalshi_post_sync_resolutions kalshi_open) None two_on_kalshi).2 = two_on_kalshi.
Proof.
  split.
  - apply (kalshi_sync_writes_only_kalshi_wagers_and_accounts kalshi_final (Some 3%nat)
             two_on_kalshi).
  - apply (kalshi_sync_writes_only_kalshi_wagers_and_accounts kalshi_open None
             two_on_kalshi).
    intros tk m. unfold kalshi_open. case_match; [|done]. by intros [= <-].
Defined.

(** ** The trading calendar *)


Lemma isTradingDay_trading_at tz t :
  isTradingDay tz t = trading_at ((t + tz) / ms_per_day) (t / ms_per_day).
Proof. done. Qed.

Lemma addDays_day n t : addDays n t / ms_per_day = t / ms_per_day + n.
Proof. unfold addDays. by rewrite Z.div_add. Qed.

Lemma addDays_local_day tz n t :
  (addDays n t + tz) / ms_per_day = (t + tz) / ms_per_day + n.
Proof.
  unfold addDays. replace (t + n * ms_per_day + tz) with (t + tz + n * ms_per_day) by lia.
  by rewrite Z.div_add.
Qed.

Lemma addDays_add n k t : addDays n (addDays k t) = addDays (k + n) t.
Proof. unfold addDays. lia. Qed.

Lemma weekday_within_three L :
  ∃ j, 0 ≤ j < 3 ∧ (L + j + 4) mod 7 ≠ 0 ∧ (L + j + 4) mod 7 ≠ 6.
Proof.
  destruct (decide ((L + 4) mod 7 = 0));
    [exists 1|destruct (decide ((L + 4) mod 7 = 6)); [exists 2|exists 0]].
  all: split; [lia|].
  all: Z.div_mod_to_equations; lia.
Qed.

Lemma holidays_in_2025 U : U ∈ MARKET_HOLIDAYS_2025 → 20089 ≤ U ≤ 20447.
Proof.
  unfold MARKET_HOLIDAYS_2025. rewrite !elem_of_cons, elem_of_nil.
  intros H. repeat destruct H as [->|H]; try done; by vm_compute.
Qed.

Lemma trading_within_2025 :
  forallb (λ U, forallb (λ dl, trading_within 4 (U + dl) U) [-1; 0; 1]) (seqZ 20080 380)
  = true.
Proof. by vm_compute. Qed.

(** Among four consecutive days there is a trading day. *)
Lemma trading_day_within_four L U :
  -1 ≤ L - U ≤ 1 → ∃ j, 0 ≤ j < 4 ∧ trading_at (L + j) (U + j) = true.
Proof.
  intros Hd. destruct (decide (20080 ≤ U < 20460)) as [Hin|Hout].
  - pose proof trading_within_2025 as Hall.
    rewrite forallb_forall in Hall. specialize (Hall U).
    rewrite <-list_elem_of_In, elem_of_seqZ in Hall. specialize (Hall ltac:(lia)).
    rewrite forallb_forall in Hall. specialize (Hall (L - U)).
    rewrite <-list_elem_of_In, !elem_of_cons, elem_of_nil in Hall.
    specialize (Hall ltac:(lia)). replace (U + (L - U)) with L in Hall by lia.
    unfold trading_within in Hall. apply existsb_exists in Hall as (j & Hj & Ht).
    rewrite <-list_elem_of_In, elem_of_seqZ in Hj. exists j. split; [lia|done].
  - destruct (weekday_within_three L) as (j & Hj & H0 & H6).
    exists j. split; [lia|]. unfold trading_at.
    apply Z.eqb_neq in H0, H6. rewrite H0, H6. cbn.
    rewrite bool_decide_eq_false_2; [done|].
    intros Hh%holidays_in_2025. lia.
Qed.

Lemma local_day_near tz t :
  - ms_per_day < tz < ms_per_day → -1 ≤ (t + tz) / ms_per_day - t / ms_per_day ≤ 1.
Proof. unfold ms_per_day. intros Htz. Z.div_mod_to_equations. lia. Qed.

Lemma next_trading_first tz k : ∀ fuel t,
  (k < fuel)%nat →
  isTradingDay tz (addDays (Z.of_nat k) t) = true →
  (∀ j, 0 ≤ j < Z.of_nat k → isTradingDay tz (addDays j t) = false) →
  next_trading fuel tz t = Some (addDays (Z.of_nat k) t).
Proof.
  induction k as [|k IH]; intros fuel t Hk Ht Hbefore.
  - destruct fuel; [lia|]. cbn [next_trading].
    replace (addDays (Z.of_nat 0) t) with t in * by (unfold addDays; lia).
    by rewrite Ht.
  - destruct fuel; [lia|]. cbn [next_trading].
    assert (isTradingDay tz t = false) as ->.
    { specialize (Hbefore 0 ltac:(lia)).
      by replace (addDays 0 t) with t in Hbefore by (unfold addDays; lia). }
    rewrite (IH fuel (addDays 1 t)).
    + rewrite addDays_add. do 2 f_equal. lia.
    + lia.
    + rewrite addDays_add. by replace (1 + Z.of_nat k) with (Z.of_nat (S k)) by lia.
    + intros j Hj. rewrite addDays_add. apply Hbefore. lia.
Qed.

Lemma first_trading_day tz t :
  - ms_per_day < tz < ms_per_day →
  ∃ k : nat, (k < 4)%nat ∧ isTradingDay tz (addDays (Z.of_nat k) t) = true
             ∧ ∀ j, 0 ≤ j < Z.of_nat k → isTradingDay tz (addDays j t) = false.
Proof.
  intros Htz.
  destruct (trading_day_within_four ((t + tz) / ms_per_day) (t / ms_per_day)
              (local_day_near tz t Htz)) as (j & Hj & Ht).
  assert (∀ n : nat, (n ≤ 4)%nat →
            (∀ i, 0 ≤ i < Z.of_nat n → isTradingDay tz (addDays i t) = false)
            ∨ ∃ k : nat, (k < n)%nat ∧ isTradingDay tz (addDays (Z.of_nat k) t) = true
                         ∧ ∀ i, 0 ≤ i < Z.of_nat k → isTradingDay tz (addDays i t) = false)
    as Hsearch.
  { induction n as [|n IH]; intros Hn; [left; lia|].
    destruct (IH ltac:(lia)) as [Hnone|(k & Hk & Hkt & Hkb)].
    - destruct (isTradingDay tz (addDays (Z.of_nat n) t)) eqn:E.
      + right. exists n. split_and!; [lia|done|done].
      + left. intros i Hi. destruct (decide (i = Z.of_nat n)) as [->|]; [done|].
        apply Hnone. lia.
    - right. exists k. split_and!; [lia|done|done]. }
  destruct (Hsearch 4%nat ltac:(lia)) as [Hnone|Hk]; [|done].
  specialize (Hnone j ltac:(lia)).
  rewrite isTradingDay_trading_at, addDays_local_day, addDays_day in Hnone. congruence.
Qed.

(** X19.  [getNextTradingDay] ends, after at most four turns of its loop,
    on the first day after [fromDate] that is neither a Saturday, a Sunday
    nor a market holiday of 2025, at the same time of day, one to four days
    later. *)
Theorem getNextTradingDay_is_next tz fromDate fuel :
  - ms_per_day < tz < ms_per_day → (4 ≤ fuel)%nat →
  ∃ k, 1 ≤ k ≤ 4
       ∧ getNextTradingDay fuel tz fromDate = Some (addDays k fromDate)
       ∧ isTradingDay tz (addDays k fromDate) = true
       ∧ ∀ j, 1 ≤ j < k → isTradingDay tz (addDays j fromDate) = false.
Proof.
  intros Htz Hfuel.
  destruct (first_trading_day tz (addDays 1 fromDate) Htz) as (k & Hk & Ht & Hb).
  exists (1 + Z.of_nat k). rewrite addDays_add in Ht. split_and!.
  - lia.
  - lia.
  - unfold getNextTradingDay. rewrite (next_trading_first tz k).
    + by rewrite addDays_add.
    + lia.
    + by rewrite addDays_add.
    + done.
  - done.
  - intros j Hj. specialize (Hb (j - 1) ltac:(lia)). rewrite addDays_add in Hb.
    by replace (1 + (j - 1)) with j in Hb by lia.
Qed.

Ltac calendar := 
  unfold createDailyTimes, createWeeklyTimes, getNextFriday, getFridayOfWeek, setHours,
    addDays, getDay, ms_per_day in *; cbn [t_opensAt t_closesAt t_resolvesAt] in *;
  Z.div_mod_to_equations; lia.

(** X20.  [createDailyTimes] gives a market that opens at 20:00 on the
    day before the trading day, closes at 9:30 on the trading day, thirteen
    and a half hours later, and resolves at 16:30, seven hours after that:
    [opensAt < closesAt < resolvesAt]. *)
Theorem createDailyTimes_ordered tz tradingDate :
  let T := createDailyTimes tz tradingDate in
  t_opensAt T < t_closesAt T < t_resolvesAt T
  ∧ t_closesAt T - t_opensAt T = 13 * 3600000 + 30 * 60000
  ∧ t_resolvesAt T - t_closesAt T = 7 * 3600000
  ∧ (t_closesAt T + tz) / ms_per_day = (tradingDate + tz) / ms_per_day
  ∧ (t_opensAt T + tz) / ms_per_day = (tradingDate + tz) / ms_per_day - 1.
Proof. cbv zeta. split_and!; calendar. Qed.

(** X21.  [createWeeklyTimes] resolves on the Friday of the week of its
    argument, at 16:30.  For every day but a Saturday this is after the
    closing time, so [opensAt < closesAt < resolvesAt]; for a Saturday the
    market would resolve before it opens.  Called as by
    [generateWeeklyPredictions], on a Sunday for the next day, it resolves
    four days and seven hours after it closes. *)
Theorem createWeeklyTimes_ordered tz mondayDate now :
  (getDay tz mondayDate ≠ 6 →
   t_opensAt (createWeeklyTimes tz mondayDate)
   < t_closesAt (createWeeklyTimes tz mondayDate)
   < t_resolvesAt (createWeeklyTimes tz mondayDate)
   ∧ getDay tz (t_resolvesAt (createWeeklyTimes tz mondayDate)) = 5)
  ∧ (getDay tz mondayDate = 6 →
     t_resolvesAt (createWeeklyTimes tz mondayDate)
     < t_opensAt (createWeeklyTimes tz mondayDate))
  ∧ (getDay tz now = 0 →
     t_opensAt (createWeeklyTimes tz (addDays 1 now))
     < t_closesAt (createWeeklyTimes tz (addDays 1 now))
     < t_resolvesAt (createWeeklyTimes tz (addDays 1 now))
     ∧ t_resolvesAt (createWeeklyTimes tz (addDays 1 now))
       - t_closesAt (createWeeklyTimes tz (addDays 1 now))
       = 4 * ms_per_day + 7 * 3600000).
Proof. split; [|split]; intros Hday; try split_and!; calendar. Qed.

(** X22.  [getNextFriday] returns 16:00 of a Friday that is one to seven
    days after the current day: never the current day, even on a Friday. *)
Theorem getNextFriday_is_a_friday tz now :
  let friday := getNextFriday tz now in
  getDay tz friday = 5
  ∧ 1 ≤ (friday + tz) / ms_per_day - (now + tz) / ms_per_day ≤ 7
  ∧ (friday + tz) mod ms_per_day = 16 * 3600000.
Proof.
  cbv zeta. unfold getNextFriday. cbv zeta.
  destruct (_ =? 0) eqn:E; [apply Z.eqb_eq in E|apply Z.eqb_neq in E].
  all: split_and!; calendar.
Qed.

Lemma getNextTradingDay_is_next_witness :
  ∃ k, 1 ≤ k ≤ 4
       ∧ getNextTradingDay 4 0 (days_from_civil 2025 4 17 * ms_per_day + 43200000)
         = Some (addDays k (days_from_civil 2025 4 17 * ms_per_day + 43200000))
       ∧ isTradingDay 0 (addDays k (days_from_civil 2025 4 17 * ms_per_day + 43200000))
         = true
       ∧ ∀ j, 1 ≤ j < k →
              isTradingDay 0 (addDays j (days_from_civil 2025 4 17 * ms_per_day + 43200000))
              = false.
Proof.
  apply (getNextTradingDay_is_next 0
           (days_from_civil 2025 4 17 * ms_per_day + 43200000) 4); by vm_compute.
Defined.

Lemma createWeeklyTimes_ordered_witness :
  (t_opensAt (createWeeklyTimes 0 (days_from_civil 2025 4 21 * ms_per_day))
   < t_closesAt (createWeeklyTimes 0 (days_from_civil 2025 4 21 * ms_per_day))
   < t_resolvesAt (createWeeklyTimes 0 (days_from_civil 2025 4 21 * ms_per_day))
   ∧ getDay 0 (t_resolvesAt (createWeeklyTimes 0 (days_from_civil 2025 4 21 * ms_per_day)))
     = 5)
  ∧ t_resolvesAt (createWeeklyTimes 0 (days_from_civil 2025 4 19 * ms_per_day))
    < t_opensAt (createWeeklyTimes 0 (days_from_civil 2025 4 19 * ms_per_day)).
Proof.
  split.
  - destruct (createWeeklyTimes_ordered 0 (days_from_civil 2025 4 21 * ms_per_day) 0)
      as (H & _).
    by apply H.
  - destruct (createWeeklyTimes_ordered 0 (days_from_civil 2025 4 19 * ms_per_day) 0)
      as (_ & H & _).
    by apply H.
Defined.

(** ** The admin creation route *)




(** ** What the auto-resolver resolves *)










